(** * The Linux counter character-device protocol layer of [counter.py]

    A shallow embedding of the ABI structures ([CounterComponent],
    [CounterWatch], [CounterEvent]), of the ioctl request-number encoding
    ([_IOC]) and of the event subscription lifecycle ([subscribe_events],
    with the two closures it returns), followed by the properties the
    specification states about them.

    Python integers are unbounded, so they are [Z] with no wrap-around; a
    [c_uint8] or [c_uint64] field holds its value modulo its width, as ctypes
    stores it.  [bytes] objects are lists of [Byte.byte].  The operating
    system is a [world] that is threaded through every call, together with
    the log of the requests made to it. *)

From Stdlib Require Import ZArith List Lia String Bool.
From Stdlib Require Strings.Byte.
From Stdlib Require DecimalString.
Import ListNotations.

Local Open Scope string_scope.
Local Open Scope list_scope.
Local Open Scope Z_scope.

(** ** Exceptions and results *)

(** The exceptions the module can raise: [OSError] from a failed system
    call (with its errno) and [ValueError] from ctypes or from an operation
    on a closed file object. *)
Inductive exn : Type :=
| OSError (errno : Z)
| ValueError.

(** How a Python call ends: it returns a value, it raises, or (a read on a
    descriptor left in blocking mode with nothing to read) it does not
    return. *)
Inductive outcome (A : Type) : Type :=
| Ret (a : A)
| Raise (e : exn)
| Block.

Arguments Ret {A} a.
Arguments Raise {A} e.
Arguments Block {A}.

(** ** ctypes: sizes, alignment, structure layout, buffers *)

Module ctypes.

(** A ctypes type, as far as [sizeof] and structure layout see it. *)
Record ctype : Type := CData { sizeof : Z; alignment : Z }.

Definition c_uint8 : ctype := {| sizeof := 1; alignment := 1 |}.
Definition c_uint64 : ctype := {| sizeof := 8; alignment := 8 |}.

(** The least multiple of [a] that is at least [off]. *)
Definition align_up (off a : Z) : Z := (off + a - 1) / a * a.

(** Native (unpacked) layout of [_fields_], from offset [off]: every field
    sits at the next offset that is a multiple of its alignment.  The
    result lists each field's offset and gives the end of the last one. *)
Fixpoint layout (fields : list (string * ctype)) (off : Z)
  : list (string * Z) * Z :=
  match fields with
  | [] => ([], off)
  | (name, t) :: rest =>
      let at_ := align_up off (alignment t) in
      let (offs, stop) := layout rest (at_ + sizeof t) in
      ((name, at_) :: offs, stop)
  end.

Definition max_alignment (fields : list (string * ctype)) : Z :=
  fold_right (fun f a => Z.max (alignment (snd f)) a) 1 fields.

(** Sum of the fields' own sizes, padding left out. *)
Definition fields_size (fields : list (string * ctype)) : Z :=
  fold_right (fun f s => sizeof (snd f) + s) 0 fields.

(** [class X(Structure): _fields_ = fields]: the structure is as aligned as
    its most aligned field and its size is rounded up to that alignment. *)
Definition Structure (fields : list (string * ctype)) : ctype :=
  {| sizeof := align_up (snd (layout fields 0)) (max_alignment fields);
     alignment := max_alignment fields |}.

Fixpoint lookup_offset (name : string) (offs : list (string * Z)) : Z :=
  match offs with
  | [] => 0
  | (n, o) :: rest => if String.eqb n name then o else lookup_offset name rest
  end.

(** [X.name.offset] *)
Definition offsetof (fields : list (string * ctype)) (name : string) : Z :=
  lookup_offset name (fst (layout fields 0)).


(** *** Buffers *)

Definition buffer : Type := list Byte.byte.

Definition zeros (n : Z) : buffer := repeat Byte.x00 (Z.to_nat n).

(** Overwrite [buf] from offset [off] with [bs] (which fits). *)
Definition poke (buf : buffer) (off : Z) (bs : list Byte.byte) : buffer :=
  firstn (Z.to_nat off) buf ++ bs
    ++ skipn (Z.to_nat off + List.length bs) buf.

Definition byte_of_Z (v : Z) : Byte.byte :=
  match Byte.of_N (Z.to_N (v mod 256)) with
  | Some b => b
  | None => Byte.x00
  end.

Definition Z_of_byte (b : Byte.byte) : Z := Z.of_N (Byte.to_N b).

Definition get_uint8 (buf : buffer) (off : Z) : Z :=
  Z_of_byte (nth (Z.to_nat off) buf Byte.x00).

(** Storing into a [c_uint8] field keeps the low 8 bits. *)
Definition set_uint8 (buf : buffer) (off : Z) (v : Z) : buffer :=
  poke buf off [byte_of_Z v].

(** Little-endian value of a byte string (the byte order of the machines
    the counter driver runs on). *)
Fixpoint le_value (bs : list Byte.byte) : Z :=
  match bs with
  | [] => 0
  | b :: rest => Z_of_byte b + 256 * le_value rest
  end.

Fixpoint le_bytes (n : nat) (v : Z) : list Byte.byte :=
  match n with
  | O => []
  | S k => byte_of_Z v :: le_bytes k (v / 256)
  end.

Definition get_uint64 (buf : buffer) (off : Z) : Z :=
  le_value (firstn 8 (skipn (Z.to_nat off) buf)).

Definition set_uint64 (buf : buffer) (off : Z) (v : Z) : buffer :=
  poke buf off (le_bytes 8 v).

(** [T.from_buffer_copy(source)]: a private copy of the first [sizeof(T)]
    bytes of [source]; [ValueError] when [source] is shorter than that. *)
Definition from_buffer_copy (t : ctype) (source : buffer) : outcome buffer :=
  if Z.of_nat (List.length source) <? sizeof t
  then Raise ValueError
  else Ret (firstn (Z.to_nat (sizeof t)) source).

Definition is_uint8 (v : Z) : Prop := 0 <= v < 256.
Definition is_uint64 (v : Z) : Prop := 0 <= v < 2 ^ 64.

End ctypes.

Import ctypes.

(** ** The ABI structures *)

Module CounterComponent.

Definition _fields_ : list (string * ctype) :=
  [("type", c_uint8); ("scope", c_uint8); ("parent", c_uint8);
   ("id", c_uint8)].

Definition ctype : ctype := Structure _fields_.

Record t : Type := mk { type : Z; scope : Z; parent : Z; id : Z }.

Definition wf (c : t) : Prop :=
  is_uint8 (type c) /\ is_uint8 (scope c) /\ is_uint8 (parent c)
  /\ is_uint8 (id c).

(** Read the fields of the structure that starts at [base] in [buf]. *)
Definition load (buf : buffer) (base : Z) : t :=
  {| type := get_uint8 buf (base + offsetof _fields_ "type");
     scope := get_uint8 buf (base + offsetof _fields_ "scope");
     parent := get_uint8 buf (base + offsetof _fields_ "parent");
     id := get_uint8 buf (base + offsetof _fields_ "id") |}.

Definition store (c : t) (buf : buffer) (base : Z) : buffer :=
  let buf := set_uint8 buf (base + offsetof _fields_ "type") (type c) in
  let buf := set_uint8 buf (base + offsetof _fields_ "scope") (scope c) in
  let buf := set_uint8 buf (base + offsetof _fields_ "parent") (parent c) in
  set_uint8 buf (base + offsetof _fields_ "id") (id c).

End CounterComponent.

Module CounterWatch.

Definition _fields_ : list (string * ctype) :=
  [("component", CounterComponent.ctype); ("event", c_uint8);
   ("channel", c_uint8)].

Definition ctype : ctype := Structure _fields_.

Record t : Type :=
  mk { component : CounterComponent.t; event : Z; channel : Z }.

Definition wf (w : t) : Prop :=
  CounterComponent.wf (component w) /\ is_uint8 (event w)
  /\ is_uint8 (channel w).

Definition load (buf : buffer) (base : Z) : t :=
  {| component :=
       CounterComponent.load buf (base + offsetof _fields_ "component");
     event := get_uint8 buf (base + offsetof _fields_ "event");
     channel := get_uint8 buf (base + offsetof _fields_ "channel") |}.

Definition store (w : t) (buf : buffer) (base : Z) : buffer :=
  let buf :=
    CounterComponent.store (component w) buf
      (base + offsetof _fields_ "component") in
  let buf := set_uint8 buf (base + offsetof _fields_ "event") (event w) in
  set_uint8 buf (base + offsetof _fields_ "channel") (channel w).

(** [bytes(watch)]: the structure's memory, which is what [ioctl] hands to
    the kernel. *)
Definition to_bytes (w : t) : buffer := store w (zeros (sizeof ctype)) 0.

(** [CounterWatch.from_buffer_copy(data)] *)
Definition from_buffer_copy (data : buffer) : outcome t :=
  match ctypes.from_buffer_copy ctype data with
  | Ret buf => Ret (load buf 0)
  | Raise e => Raise e
  | Block => Block
  end.

End CounterWatch.

Module CounterEvent.

Definition _fields_ : list (string * ctype) :=
  [("timestamp", c_uint64); ("value", c_uint64);
   ("watch", CounterWatch.ctype); ("status", c_uint8)].

Definition ctype : ctype := Structure _fields_.

Record t : Type :=
  mk { timestamp : Z; value : Z; watch : CounterWatch.t; status : Z }.

Definition wf (e : t) : Prop :=
  is_uint64 (timestamp e) /\ is_uint64 (value e)
  /\ CounterWatch.wf (watch e) /\ is_uint8 (status e).

Definition load (buf : buffer) (base : Z) : t :=
  {| timestamp := get_uint64 buf (base + offsetof _fields_ "timestamp");
     value := get_uint64 buf (base + offsetof _fields_ "value");
     watch := CounterWatch.load buf (base + offsetof _fields_ "watch");
     status := get_uint8 buf (base + offsetof _fields_ "status") |}.

Definition store (e : t) (buf : buffer) (base : Z) : buffer :=
  let buf :=
    set_uint64 buf (base + offsetof _fields_ "timestamp") (timestamp e) in
  let buf := set_uint64 buf (base + offsetof _fields_ "value") (value e) in
  let buf :=
    CounterWatch.store (watch e) buf (base + offsetof _fields_ "watch") in
  set_uint8 buf (base + offsetof _fields_ "status") (status e).

Definition to_bytes (e : t) : buffer := store e (zeros (sizeof ctype)) 0.

(** [CounterEvent.from_buffer_copy(data)] *)
Definition from_buffer_copy (data : buffer) : outcome t :=
  match ctypes.from_buffer_copy ctype data with
  | Ret buf => Ret (load buf 0)
  | Raise e => Raise e
  | Block => Block
  end.

(** The [event_type] property. *)
Definition event_type (e : t) : Z := CounterWatch.event (watch e).

End CounterEvent.

(** ** The ioctl request-number encoding *)

Definition _IOC_NRBITS : Z := 8.
Definition _IOC_TYPEBITS : Z := 8.
Definition _IOC_SIZEBITS : Z := 14.
Definition _IOC_DIRBITS : Z := 2.
Definition _IOC_NONE : Z := 0.
Definition _IOC_WRITE : Z := 1.
Definition _IOC_READ : Z := 2.

Definition _IOC (direction request_type request_nr size : Z) : Z :=
  let _IOC_NRSHIFT := 0 in
  let _IOC_TYPESHIFT := _IOC_NRSHIFT + _IOC_NRBITS in
  let _IOC_SIZESHIFT := _IOC_TYPESHIFT + _IOC_TYPEBITS in
  let _IOC_DIRSHIFT := _IOC_SIZESHIFT + _IOC_SIZEBITS in
  Z.lor
    (Z.lor
       (Z.lor (Z.shiftl direction _IOC_DIRSHIFT)
          (Z.shiftl request_type _IOC_TYPESHIFT))
       (Z.shiftl request_nr _IOC_NRSHIFT))
    (Z.shiftl size _IOC_SIZESHIFT).

Definition COUNTER_ADD_WATCH_IOCTL : Z :=
  _IOC _IOC_WRITE 0x3E 0x00 (sizeof CounterWatch.ctype).
Definition COUNTER_ENABLE_EVENTS_IOCTL : Z := _IOC _IOC_NONE 0x3E 0x01 0.
Definition COUNTER_DISABLE_EVENTS_IOCTL : Z := _IOC _IOC_NONE 0x3E 0x02 0.

(** The four fields of a request number, read back out of it. *)
Definition ioc_nr (code : Z) : Z := Z.land code (Z.ones _IOC_NRBITS).
Definition ioc_type (code : Z) : Z :=
  Z.land (Z.shiftr code _IOC_NRBITS) (Z.ones _IOC_TYPEBITS).
Definition ioc_size (code : Z) : Z :=
  Z.land (Z.shiftr code (_IOC_NRBITS + _IOC_TYPEBITS)) (Z.ones _IOC_SIZEBITS).
Definition ioc_dir (code : Z) : Z :=
  Z.land (Z.shiftr code (_IOC_NRBITS + _IOC_TYPEBITS + _IOC_SIZEBITS))
    (Z.ones _IOC_DIRBITS).

(** Inputs that fit their fields. *)
Definition ioc_fields_ok (direction request_type request_nr size : Z) : Prop :=
  0 <= direction < 2 ^ _IOC_DIRBITS
  /\ 0 <= request_type < 2 ^ _IOC_TYPEBITS
  /\ 0 <= request_nr < 2 ^ _IOC_NRBITS
  /\ 0 <= size < 2 ^ _IOC_SIZEBITS.

(** ** A state and exception monad *)

Definition M (S A : Type) : Type := S -> S * outcome A.

Definition ret {S A : Type} (a : A) : M S A := fun s => (s, Ret a).

Definition raise {S A : Type} (e : exn) : M S A := fun s => (s, Raise e).

Definition bind {S A B : Type} (m : M S A) (k : A -> M S B) : M S B :=
  fun s =>
    let (s', r) := m s in
    match r with
    | Ret a => k a s'
    | Raise e => (s', Raise e)
    | Block => (s', Block)
    end.

Declare Scope io_scope.
Delimit Scope io_scope with io.
Notation "x <- m ;; k" := (bind m (fun x => k))
  (at level 61, m at next level, right associativity) : io_scope.
Notation "m ;; k" := (bind m (fun _ => k))
  (at level 61, right associativity) : io_scope.

(** [for x in l: body(x)] *)
Fixpoint for_each {S A : Type} (l : list A) (body : A -> M S unit)
  : M S unit :=
  match l with
  | [] => ret tt
  | x :: rest => (body x ;; for_each rest body)%io
  end.

(** [outcome] values that come from pure code. *)
Definition lift_outcome {S A : Type} (r : outcome A) : M S A :=
  fun s => (s, r).

(** ** The operating system as seen through one device handle *)

Definition F_SETFL : Z := 4.
Definition O_NONBLOCK : Z := 0x800.

Inductive request : Type :=
| ReqOpen (path mode : string)
| ReqFcntl (cmd arg : Z)
| ReqIoctl (code : Z) (arg : buffer)
| ReqRead (size : Z)
| ReqClose.

(** A logged request: what was asked and the errno it failed with, if any. *)
Definition entry : Type := request * option Z.

Record world : Type := mkWorld {
  handle_open : bool;        (* the file object is open *)
  nonblocking : bool;        (* O_NONBLOCK is set on it *)
  watches : list buffer;     (* watches the driver accepted, in order *)
  events_enabled : bool;     (* the driver delivers events *)
  fifo : buffer;             (* bytes the driver has ready for reading *)
  hung_up : bool;            (* reads at the end of [fifo] see end of file *)
  log : list entry           (* every request so far, oldest first *)
}.

Definition record (r : request) (res : option Z) (w : world) : world :=
  mkWorld (handle_open w) (nonblocking w) (watches w) (events_enabled w)
    (fifo w) (hung_up w) (log w ++ [(r, res)]).

Definition set_handle (open nb : bool) (w : world) : world :=
  mkWorld open nb (watches w) (events_enabled w) (fifo w) (hung_up w) (log w).

Definition set_driver (ws : list buffer) (en : bool) (w : world) : world :=
  mkWorld (handle_open w) (nonblocking w) ws en (fifo w) (hung_up w) (log w).

Definition set_fifo (bs : buffer) (w : world) : world :=
  mkWorld (handle_open w) (nonblocking w) (watches w) (events_enabled w)
    bs (hung_up w) (log w).

(** What a successful request does to the world.  What the driver does to
    its watches when the handle is released is left out: nothing below leans
    on it. *)
Definition effect (r : request) (w : world) : world :=
  match r with
  | ReqOpen _ _ => set_handle true false w
  | ReqFcntl cmd arg =>
      if cmd =? F_SETFL
      then set_handle (handle_open w)
             (negb (Z.land arg O_NONBLOCK =? 0)) w
      else w
  | ReqIoctl code arg =>
      if code =? COUNTER_ADD_WATCH_IOCTL
      then set_driver (watches w ++ [arg]) (events_enabled w) w
      else if code =? COUNTER_ENABLE_EVENTS_IOCTL
      then set_driver (watches w) true w
      else if code =? COUNTER_DISABLE_EVENTS_IOCTL
      then set_driver (watches w) false w
      else w
  | ReqRead size => set_fifo (skipn (Z.to_nat size) (fifo w)) w
  | ReqClose => set_handle false (nonblocking w) w
  end.

(** The log of the requests made between [w] and a later [w']. *)
Definition since (w w' : world) : list entry :=
  skipn (List.length (log w)) (log w').

Section Device.

(** The kernel decides, from what it has been asked so far, whether the
    next request fails and with which errno. *)
Variable faults : list entry -> request -> option Z.

Definition syscall (r : request) : M world unit :=
  fun w =>
    match faults (log w) r with
    | Some errno => (record r (Some errno) w, Raise (OSError errno))
    | None => (record r None (effect r w), Ret tt)
    end.

(** [open(path, mode)] *)
Definition open (path mode : string) : M world unit :=
  syscall (ReqOpen path mode).

(** An operation that needs [f.fileno()]: [ValueError] on a closed file. *)
Definition on_open_file {A : Type} (m : M world A) : M world A :=
  fun w => if handle_open w then m w else (w, Raise ValueError).

(** [fcntl(f, cmd, arg)] *)
Definition fcntl (cmd arg : Z) : M world unit :=
  on_open_file (syscall (ReqFcntl cmd arg)).

(** [ioctl(f, code, arg)]; [arg] is the memory of the structure passed,
    empty when none is. *)
Definition ioctl (code : Z) (arg : buffer) : M world unit :=
  on_open_file (syscall (ReqIoctl code arg)).

(** [f.read(size)] on the buffered reader: the bytes that are ready, at
    most [size] of them; [b''] at end of file; [None] when the descriptor
    is non-blocking and nothing is ready. *)
Definition file_read (size : Z) : M world (option buffer) :=
  on_open_file
    (fun w =>
       match fifo w with
       | [] =>
           if hung_up w then (syscall (ReqRead size) ;; ret (Some []))%io w
           else if nonblocking w
                then (syscall (ReqRead size) ;; ret None)%io w
                else (w, Block)
       | _ :: _ =>
           (syscall (ReqRead size) ;;
            ret (Some (firstn (Z.to_nat size) (fifo w))))%io w
       end).

(** [f.close()], which is also [f.__exit__]: nothing on a closed file;
    closing the descriptor does not fail. *)
Definition file_close : M world unit :=
  fun w =>
    if handle_open w then (record ReqClose None (effect ReqClose w), Ret tt)
    else (w, Ret tt).

(** *** contextlib.ExitStack *)

(** The two kinds of exit callback the module registers. *)
Inductive callback : Type :=
| FileExit                          (* from [enter_context(f)] *)
| IoctlCallback (code : Z).         (* from [callback(ioctl, f, code)] *)

Definition run_callback (cb : callback) : M world unit :=
  match cb with
  | FileExit => file_close
  | IoctlCallback code => ioctl code []
  end.

(** The loop of [ExitStack.__exit__]: callbacks run last-registered first
    (the head of the list is the top of the stack); one that raises
    replaces the pending exception and the loop goes on.  Neither kind of
    callback returns a true value, so none swallows the exception. *)
Fixpoint unwind (cbs : list callback) (exc : option exn)
  : M world (option exn) :=
  fun w =>
    match cbs with
    | [] => (w, Ret exc)
    | cb :: rest =>
        let (w', r) := run_callback cb w in
        match r with
        | Ret _ => unwind rest exc w'
        | Raise e => unwind rest (Some e) w'
        | Block => (w', Block)
        end
    end.

(** An [ExitStack] object together with the world it acts on. *)
Record frame : Type := mkFrame { stack : list callback; os : world }.

Definition lift {A : Type} (m : M world A) : M frame A :=
  fun fr => let (w', r) := m (os fr) in (mkFrame (stack fr) w', r).

(** [stack.enter_context(cm)] and [stack.callback(...)] *)
Definition push (cb : callback) : M frame unit :=
  fun fr => (mkFrame (cb :: stack fr) (os fr), Ret tt).

(** [stack.pop_all()]: the callbacks move to a new stack. *)
Definition pop_all : M frame (list callback) :=
  fun fr => (mkFrame [] (os fr), Ret (stack fr)).

(** [ExitStack.__exit__] with the exception [exc] in flight: every
    callback is popped and run, and what is pending at the end is raised. *)
Definition ExitStack_exit (exc : option exn) : M frame unit :=
  fun fr =>
    let (w', r) := unwind (stack fr) exc (os fr) in
    (mkFrame [] w',
     match r with
     | Ret None => Ret tt
     | Ret (Some e) => Raise e
     | Block => Block
     | Raise e => Raise e
     end).

(** [ExitStack.close()] *)
Definition ExitStack_close : M frame unit := ExitStack_exit None.

(** [with contextlib.ExitStack() as stack: body] *)
Definition with_ExitStack {A : Type} (body : M frame A) : M world A :=
  fun w =>
    let (fr, r) := body (mkFrame [] w) in
    match r with
    | Ret a =>
        let (fr', r') := ExitStack_exit None fr in
        (os fr', match r' with
                 | Ret _ => Ret a
                 | Raise e => Raise e
                 | Block => Block
                 end)
    | Raise e =>
        let (fr', r') := ExitStack_exit (Some e) fr in
        (os fr', match r' with
                 | Ret _ => Raise e
                 | Raise e' => Raise e'
                 | Block => Block
                 end)
    | Block => (os fr, Block)
    end.

(** *** Counter.subscribe_events *)

(** The closure [read_event], split at the result of [f.read]. *)
Definition decode_read (data : option buffer)
  : outcome (option CounterEvent.t) :=
  match data with
  | None => Ret None
  | Some bs =>
      match CounterEvent.from_buffer_copy bs with
      | Ret e => Ret (Some e)
      | Raise x => Raise x
      | Block => Block
      end
  end.

Definition read_event : M world (option CounterEvent.t) :=
  (data <- file_read (sizeof CounterEvent.ctype) ;;
   lift_outcome (decode_read data))%io.

(** What [subscribe_events] returns: the stack that [pop_all] made, whose
    [close] is the first closure; the second closure is [read_event]. *)
Definition subscription : Type := list callback.

Definition subscribe_events (dev : string) (watches : list CounterWatch.t)
  : M world subscription :=
  with_ExitStack
    (lift (open dev "rb") ;;
     push FileExit ;;
     lift (fcntl F_SETFL O_NONBLOCK) ;;
     for_each watches
       (fun watch =>
          lift (ioctl COUNTER_ADD_WATCH_IOCTL (CounterWatch.to_bytes watch))) ;;
     lift (ioctl COUNTER_ENABLE_EVENTS_IOCTL []) ;;
     push (IoctlCallback COUNTER_DISABLE_EVENTS_IOCTL) ;;
     pop_all)%io.

(** The closure [unsubscribe], i.e. [stack.pop_all().close], on the stack
    [s] it is bound to; it gives the stack back as it leaves it. *)
Definition unsubscribe (s : subscription) (w : world)
  : subscription * world * outcome unit :=
  let (fr, r) := ExitStack_close (mkFrame s w) in (stack fr, os fr, r).

End Device.

(** ** Sample environments *)

(** A kernel that never refuses. *)
Definition never_fails : list entry -> request -> option Z :=
  fun _ _ => None.

(** A kernel that refuses the [n]-th request (counting from 0) with [errno]
    and accepts every other one. *)
Definition fails_at (n : nat) (errno : Z) : list entry -> request -> option Z :=
  fun history _ => if Nat.eqb (List.length history) n then Some errno else None.

(** A kernel that refuses the disable-events request with [errno]. *)
Definition fails_disable (errno : Z) : list entry -> request -> option Z :=
  fun _ r =>
    match r with
    | ReqIoctl code _ =>
        if code =? COUNTER_DISABLE_EVENTS_IOCTL then Some errno else None
    | _ => None
    end.

(** Before anything was opened. *)
Definition boot : world := mkWorld false false [] false [] false [].

Definition overflow : CounterWatch.t :=
  CounterWatch.mk (CounterComponent.mk 0 0 0 0) 0 0.
Definition underflow : CounterWatch.t :=
  CounterWatch.mk (CounterComponent.mk 0 0 0 0) 1 0.

(** ** Vocabulary for the lifecycle properties *)

Definition ok (r : request) : entry := (r, None).

Definition add_request (watch : CounterWatch.t) : request :=
  ReqIoctl COUNTER_ADD_WATCH_IOCTL (CounterWatch.to_bytes watch).

Definition enable_request : request := ReqIoctl COUNTER_ENABLE_EVENTS_IOCTL [].

Definition disable_request : request :=
  ReqIoctl COUNTER_DISABLE_EVENTS_IOCTL [].

(** The requests [subscribe_events] makes when none fails, in order. *)
Definition planned (dev : string) (ws : list CounterWatch.t) : list request :=
  ReqOpen dev "rb" :: ReqFcntl F_SETFL O_NONBLOCK
    :: map add_request ws ++ [enable_request].

(** How a call of [subscribe_events] on [w] can end, with the world [w'] it
    leaves: all planned requests were accepted; the open was refused; or a
    later request [q] was refused after the requests [pre] were accepted,
    and the handle was closed. *)
Inductive subscribed (dev : string) (ws : list CounterWatch.t)
  (w w' : world) : outcome subscription -> Prop :=
| Subscribed :
    log w' = log w ++ map ok (planned dev ws) ->
    handle_open w' = true -> nonblocking w' = true ->
    events_enabled w' = true ->
    watches w' = watches w ++ map CounterWatch.to_bytes ws ->
    fifo w' = fifo w -> hung_up w' = hung_up w ->
    subscribed dev ws w w'
      (Ret [IoctlCallback COUNTER_DISABLE_EVENTS_IOCTL; FileExit])
| OpenFailed (errno : Z) :
    log w' = log w ++ [(ReqOpen dev "rb", Some errno)] ->
    handle_open w' = handle_open w ->
    events_enabled w' = events_enabled w ->
    subscribed dev ws w w' (Raise (OSError errno))
| RequestFailed (pre post : list request) (q : request) (errno : Z) :
    planned dev ws = ReqOpen dev "rb" :: pre ++ q :: post ->
    log w'
    = log w ++ map ok (ReqOpen dev "rb" :: pre)
        ++ [(q, Some errno); (ReqClose, None)] ->
    handle_open w' = false ->
    events_enabled w' = events_enabled w ->
    subscribed dev ws w w' (Raise (OSError errno)).

(** The device reaches the end of its stream. *)
Definition hang_up (w : world) : world :=
  mkWorld (handle_open w) (nonblocking w) (watches w) (events_enabled w)
    (fifo w) true (log w).


Definition counter2 : string := "/dev/counter2".

(** The world after the subscription of the example script. *)
Definition subscribed_world : world :=
  fst (subscribe_events never_fails counter2 [overflow; underflow] boot).

(** An overflow event of count 0: timestamp 1000, value 359, status 0. *)
Definition overflow_event : CounterEvent.t :=
  CounterEvent.mk 1000 359 overflow 0.

(** ** The enumerations, and what reads a field through them *)

(** [class CounterComponentType(IntEnum)] *)
Module CounterComponentType.

Inductive t : Type := NONE | SIGNAL | COUNT | FUNCTION | SYNAPSE_ACTION | EXTENSION.

Definition value (m : t) : Z :=
  match m with
  | NONE => 0
  | SIGNAL => 1
  | COUNT => 2
  | FUNCTION => 3
  | SYNAPSE_ACTION => 4
  | EXTENSION => 5
  end.

(** [CounterComponentType(v)]: the member whose value is [v];
    [ValueError] when there is none. *)
Definition of_value (v : Z) : outcome t :=
  match v with
  | 0 => Ret NONE
  | 1 => Ret SIGNAL
  | 2 => Ret COUNT
  | 3 => Ret FUNCTION
  | 4 => Ret SYNAPSE_ACTION
  | 5 => Ret EXTENSION
  | _ => Raise ValueError
  end.

Definition name (m : t) : string :=
  match m with
  | NONE => "NONE"
  | SIGNAL => "SIGNAL"
  | COUNT => "COUNT"
  | FUNCTION => "FUNCTION"
  | SYNAPSE_ACTION => "SYNAPSE_ACTION"
  | EXTENSION => "EXTENSION"
  end.

End CounterComponentType.

(** [class CounterScope(IntEnum)] *)
Module CounterScope.

Inductive t : Type := DEVICE | SIGNAL | COUNT.

Definition value (m : t) : Z :=
  match m with
  | DEVICE => 0
  | SIGNAL => 1
  | COUNT => 2
  end.

Definition of_value (v : Z) : outcome t :=
  match v with
  | 0 => Ret DEVICE
  | 1 => Ret SIGNAL
  | 2 => Ret COUNT
  | _ => Raise ValueError
  end.

Definition name (m : t) : string :=
  match m with
  | DEVICE => "DEVICE"
  | SIGNAL => "SIGNAL"
  | COUNT => "COUNT"
  end.

End CounterScope.

(** [class CounterEventType(IntEnum)] *)
Module CounterEventType.

Inductive t : Type :=
| OVERFLOW | UNDERFLOW | OVERFLOW_UNDERFLOW | THRESHOLD | INDEX
| DIRECTION_CHANGE | TIMEOUT.

Definition value (m : t) : Z :=
  match m with
  | OVERFLOW => 0
  | UNDERFLOW => 1
  | OVERFLOW_UNDERFLOW => 2
  | THRESHOLD => 3
  | INDEX => 4
  | DIRECTION_CHANGE => 5
  | TIMEOUT => 6
  end.

Definition of_value (v : Z) : outcome t :=
  match v with
  | 0 => Ret OVERFLOW
  | 1 => Ret UNDERFLOW
  | 2 => Ret OVERFLOW_UNDERFLOW
  | 3 => Ret THRESHOLD
  | 4 => Ret INDEX
  | 5 => Ret DIRECTION_CHANGE
  | 6 => Ret TIMEOUT
  | _ => Raise ValueError
  end.

Definition name (m : t) : string :=
  match m with
  | OVERFLOW => "OVERFLOW"
  | UNDERFLOW => "UNDERFLOW"
  | OVERFLOW_UNDERFLOW => "OVERFLOW_UNDERFLOW"
  | THRESHOLD => "THRESHOLD"
  | INDEX => "INDEX"
  | DIRECTION_CHANGE => "DIRECTION_CHANGE"
  | TIMEOUT => "TIMEOUT"
  end.

(** [a == b] on members. *)
Definition eqb (a b : t) : bool := value a =? value b.

End CounterEventType.

(** [CounterEvent.event_type], with its conversion:
    [CounterEventType(self.watch.event)]. *)
Definition CounterEvent_event_type (e : CounterEvent.t)
  : outcome CounterEventType.t :=
  CounterEventType.of_value (CounterEvent.event_type e).

(** [str(v)] for an integer [v]. *)
Definition str_int (v : Z) : string :=
  DecimalString.NilZero.string_of_int (Z.to_int v).

(** Continue with [k] after pure code that may raise. *)
Definition and_then {A B : Type} (r : outcome A) (k : A -> outcome B)
  : outcome B :=
  match r with
  | Ret a => k a
  | Raise e => Raise e
  | Block => Block
  end.

(** [CounterComponent.__repr__] *)
Definition CounterComponent_repr (c : CounterComponent.t) : outcome string :=
  and_then (CounterComponentType.of_value (CounterComponent.type c))
    (fun ty =>
       and_then (CounterScope.of_value (CounterComponent.scope c))
         (fun sc =>
            Ret ("CounterComponent(type=" ++ CounterComponentType.name ty
                 ++ ", scope=" ++ CounterScope.name sc
                 ++ ", parent=" ++ str_int (CounterComponent.parent c)
                 ++ ", id=" ++ str_int (CounterComponent.id c) ++ ")")%string)).

(** [CounterWatch.__repr__] *)
Definition CounterWatch_repr (w : CounterWatch.t) : outcome string :=
  and_then (CounterComponent_repr (CounterWatch.component w))
    (fun comp =>
       and_then (CounterEventType.of_value (CounterWatch.event w))
         (fun ev =>
            Ret ("CounterWatch(component=" ++ comp
                 ++ ", event=" ++ CounterEventType.name ev
                 ++ ", channel=" ++ str_int (CounterWatch.channel w)
                 ++ ")")%string)).

(** [CounterEvent.__repr__] *)
Definition CounterEvent_repr (e : CounterEvent.t) : outcome string :=
  and_then (CounterWatch_repr (CounterEvent.watch e))
    (fun wt =>
       Ret ("CounterEvent(watch=" ++ wt
            ++ ", timestamp=" ++ str_int (CounterEvent.timestamp e)
            ++ ", value=" ++ str_int (CounterEvent.value e)
            ++ ", status=" ++ str_int (CounterEvent.status e) ++ ")")%string).

(** ** Vocabulary for further lifecycle properties *)

(** The kernel accepts the requests [reqs], one after the other, when the
    log stands at [lg]. *)
Fixpoint accepts (faults : list entry -> request -> option Z)
  (lg : list entry) (reqs : list request) : bool :=
  match reqs with
  | [] => true
  | q :: rest =>
      match faults lg q with
      | None => accepts faults (lg ++ [(q, None)]) rest
      | Some _ => false
      end
  end.



(** ** test.py: draining the pending events *)





(** The three enumeration bytes of a watch are all known values. *)
Definition printable (w : CounterWatch.t) : Prop :=
  0 <= CounterComponent.type (CounterWatch.component w) <= 5
  /\ 0 <= CounterComponent.scope (CounterWatch.component w) <= 2
  /\ 0 <= CounterWatch.event w <= 6.


(** ** The sysfs attribute files *)

Definition _DEFAULT_FUNCTION : string := "quadrature x4".
Definition _DEFAULT_CEILING : Z := Z.shiftl 1 32 - 1.

Inductive attr_request : Type :=
| AttrRead (path : string)
| AttrWrite (path text : string).

(** A logged attribute request and the errno it failed with, if any. *)
Definition attr_entry : Type := attr_request * option Z.

Definition attr_ok (q : attr_request) : attr_entry := (q, None).

(** The attribute tree as the kernel presents it, given the requests made so
    far: [show] is what reading a path yields (an errno or the text),
    [store] whether writing a text to a path is refused. *)
Record sysfs_kernel : Type := mkSysfs {
  show : list attr_entry -> string -> Z + string;
  store : list attr_entry -> string -> string -> option Z
}.

(** [with open(path) as f: ... f.read() ...] *)
Definition read_text (kernel : sysfs_kernel) (path : string)
  : M (list attr_entry) string :=
  fun lg =>
    match show kernel lg path with
    | inl errno => (lg ++ [(AttrRead path, Some errno)], Raise (OSError errno))
    | inr text => (lg ++ [(AttrRead path, None)], Ret text)
    end.

(** [with open(path, "w") as f: f.write(text)] *)
Definition write_text (kernel : sysfs_kernel) (path text : string)
  : M (list attr_entry) unit :=
  fun lg =>
    match store kernel lg path text with
    | Some errno =>
        (lg ++ [(AttrWrite path text, Some errno)], Raise (OSError errno))
    | None => (lg ++ [(AttrWrite path text, None)], Ret tt)
    end.

(** Make the request [q], dropping what a read yields. *)
Definition perform (kernel : sysfs_kernel) (q : attr_request)
  : M (list attr_entry) unit :=
  match q with
  | AttrRead path => (read_text kernel path ;; ret tt)%io
  | AttrWrite path text => write_text kernel path text
  end.

(** [int(text)], with the builtin's reading of a text as a parameter:
    [ValueError] when it has none. *)
Definition py_int {S : Type} (int : string -> option Z) (text : string)
  : M S Z :=
  match int text with
  | Some v => ret v
  | None => raise ValueError
  end.

(** [range(n)] *)
Definition range (n : Z) : list Z := map Z.of_nat (seq 0 (Z.to_nat n)).

(** [d[k] = v] on a dict kept in insertion order. *)
Fixpoint dict_set {A : Type} (k : Z) (v : A) (d : list (Z * A))
  : list (Z * A) :=
  match d with
  | [] => [(k, v)]
  | (k', v') :: rest =>
      if k' =? k then (k, v) :: rest else (k', v') :: dict_set k v rest
  end.

Module Count.

Record t : Type := mk { _sysfs : string }.

(** The [count] setter. *)
Definition set_count (kernel : sysfs_kernel) (self : t) (value : Z)
  : M (list attr_entry) unit :=
  write_text kernel (_sysfs self ++ "/count")%string (str_int value).

(** The [ceiling] setter. *)
Definition set_ceiling (kernel : sysfs_kernel) (self : t) (value : Z)
  : M (list attr_entry) unit :=
  write_text kernel (_sysfs self ++ "/ceiling")%string (str_int value).

(** The [enable] setter: [str(int(bool(value)))]. *)
Definition set_enable (kernel : sysfs_kernel) (self : t) (value : bool)
  : M (list attr_entry) unit :=
  write_text kernel (_sysfs self ++ "/enable")%string (str_int (Z.b2z value)).

(** The [function] setter. *)
Definition set_function (kernel : sysfs_kernel) (self : t) (value : string)
  : M (list attr_entry) unit :=
  write_text kernel (_sysfs self ++ "/function")%string value.

(** [Count(counter, id, function, ceiling, count)], with [counter._sysfs]
    for [counter]. *)
Definition __init__ (kernel : sysfs_kernel) (counter_sysfs : string) (id : Z)
  (function : string) (ceiling : Z) (count : option Z)
  : M (list attr_entry) t :=
  let self := mk (counter_sysfs ++ "/count" ++ str_int id)%string in
  (set_enable kernel self false ;;
   set_ceiling kernel self ceiling ;;
   set_function kernel self function ;;
   match count with
   | Some value => set_count kernel self value
   | None => ret tt
   end ;;
   ret self)%io.

(** The writes of [__init__] when none is refused, in order. *)
Definition plan (counter_sysfs : string) (id : Z) (function : string)
  (ceiling : Z) (count : option Z) : list attr_request :=
  let dir := (counter_sysfs ++ "/count" ++ str_int id)%string in
  [AttrWrite (dir ++ "/enable")%string "0";
   AttrWrite (dir ++ "/ceiling")%string (str_int ceiling);
   AttrWrite (dir ++ "/function")%string function]
    ++ match count with
       | Some value => [AttrWrite (dir ++ "/count")%string (str_int value)]
       | None => []
       end.

End Count.

Module Signal.

Record t : Type := mk { _sysfs : string }.

(** [Signal(counter, id)] *)
Definition __init__ (counter_sysfs : string) (id : Z) : t :=
  mk (counter_sysfs ++ "/signal" ++ str_int id)%string.

End Signal.

Module Counter.

Record t : Type := mk {
  _sysfs : string;
  _dev : string;
  _num_counts : Z;
  _counts : list (Z * Count.t);
  _num_signals : Z;
  _signals : list (Z * Signal.t)
}.

(** [for count_id in range(...): self._counts[count_id] = Count(...)] *)
Fixpoint make_counts (kernel : sysfs_kernel) (sysfs : string)
  (function : string) (ceiling : Z) (count : option Z) (ids : list Z)
  (counts : list (Z * Count.t)) : M (list attr_entry) (list (Z * Count.t)) :=
  match ids with
  | [] => ret counts
  | count_id :: rest =>
      (c <- Count.__init__ kernel sysfs count_id function ceiling count ;;
       make_counts kernel sysfs function ceiling count rest
         (dict_set count_id c counts))%io
  end.

(** [for signal_id in range(...): self._signals[signal_id] = Signal(...)] *)
Definition make_signals (sysfs : string) (ids : list Z)
  : list (Z * Signal.t) :=
  fold_left (fun d signal_id => dict_set signal_id (Signal.__init__ sysfs signal_id) d)
    ids [].

(** [Counter(id, function, ceiling, count)] *)
Definition __init__ (kernel : sysfs_kernel) (int : string -> option Z)
  (id : Z) (function : string) (ceiling : Z) (count : option Z)
  : M (list attr_entry) t :=
  let sysfs := ("/sys/bus/counter/devices/counter" ++ str_int id)%string in
  let dev := ("/dev/counter" ++ str_int id)%string in
  (text <- read_text kernel (sysfs ++ "/num_counts")%string ;;
   num_counts <- py_int int text ;;
   counts <- make_counts kernel sysfs function ceiling count
               (range num_counts) [] ;;
   text' <- read_text kernel (sysfs ++ "/num_signals")%string ;;
   num_signals <- py_int int text' ;;
   ret (mk sysfs dev num_counts counts num_signals
          (make_signals sysfs (range num_signals))))%io.

End Counter.

(** A sample attribute tree: two counts and two signals, every write
    accepted. *)
Definition two_counts : sysfs_kernel :=
  mkSysfs (fun _ _ => inr "2") (fun _ _ _ => None).

(** A sample reading of decimal texts, enough for the samples. *)
Definition sample_int (text : string) : option Z :=
  if String.eqb text "2" then Some 2
  else if String.eqb text "0" then Some 0
  else None.

(** * Properties *)

(** ** Request numbers *)

Lemma lor_comm_assoc4 (a b c d : Z) :
  Z.lor (Z.lor (Z.lor d b) a) c = Z.lor (Z.lor (Z.lor a b) c) d.
Proof.
  apply Z.bits_inj'; intros i _.
  rewrite !Z.lor_spec.
  destruct (Z.testbit a i), (Z.testbit b i), (Z.testbit c i),
    (Z.testbit d i); reflexivity.
Qed.

(** Below bit [k] sits [a], from bit [k] on sits [b]: or-ing is adding. *)
Lemma lor_shiftl_disjoint (a b k : Z) :
  0 <= k -> 0 <= a < 2 ^ k -> Z.lor a (Z.shiftl b k) = a + b * 2 ^ k.
Proof.
  intros Hk Ha.
  rewrite <- (Z.shiftl_mul_pow2 b k Hk), <- Z.add_lor_land.
  assert (Hz : Z.land a (Z.shiftl b k) = 0).
  { apply Z.bits_inj'; intros i Hi.
    rewrite Z.land_spec, Z.bits_0.
    destruct (Z.lt_ge_cases i k) as [Hlt | Hge].
    - rewrite (Z.shiftl_spec_low b k i Hlt). apply andb_false_r.
    - assert (Hbit : Z.testbit a i = false).
      { destruct (Z.eq_dec a 0) as [-> | Hnz]; [apply Z.bits_0 |].
        apply Z.bits_above_log2; [lia |].
        apply Z.log2_lt_pow2; [lia |].
        apply Z.lt_le_trans with (2 ^ k); [lia |].
        apply Z.pow_le_mono_r; lia. }
      rewrite Hbit. reflexivity. }
  rewrite Hz. lia.
Qed.

(** Within the field widths the request number is the sum of the fields,
    each scaled to its position. *)
Lemma _IOC_sum (direction request_type request_nr size : Z) :
  ioc_fields_ok direction request_type request_nr size ->
  _IOC direction request_type request_nr size
  = request_nr + request_type * 2 ^ 8 + size * 2 ^ 16 + direction * 2 ^ 30.
Proof.
  unfold ioc_fields_ok, _IOC_DIRBITS, _IOC_TYPEBITS, _IOC_NRBITS,
    _IOC_SIZEBITS.
  intros (Hd & Ht & Hn & Hs).
  unfold _IOC, _IOC_NRBITS, _IOC_TYPEBITS, _IOC_SIZEBITS.
  change (0 + 8 + 8 + 14) with 30. change (0 + 8 + 8) with 16.
  change (0 + 8) with 8.
  rewrite Z.shiftl_0_r, lor_comm_assoc4.
  rewrite (lor_shiftl_disjoint request_nr request_type 8); [| lia | lia].
  rewrite (lor_shiftl_disjoint _ size 16); [| lia | lia].
  rewrite (lor_shiftl_disjoint _ direction 30); [| lia | lia].
  reflexivity.
Qed.

(** ** Structure layout and buffers *)

Lemma Z_of_byte_of_Z (v : Z) : is_uint8 v -> Z_of_byte (byte_of_Z v) = v.
Proof.
  unfold is_uint8, Z_of_byte, byte_of_Z. intros Hv.
  rewrite (Z.mod_small v 256 Hv).
  pose proof (Byte.to_of_N_option_map (Z.to_N v)) as Hmap.
  destruct (Byte.of_N (Z.to_N v)) as [b |] eqn:Hb; simpl in Hmap.
  - rewrite (Byte.to_of_N _ Hb). lia.
  - destruct (N.leb_spec (Z.to_N v) 255) as [_ | Hgt]; [discriminate | lia].
Qed.

Lemma CounterWatch_to_bytes_fields (w : CounterWatch.t) :
  CounterWatch.to_bytes w
  = map byte_of_Z
      [CounterComponent.type (CounterWatch.component w);
       CounterComponent.scope (CounterWatch.component w);
       CounterComponent.parent (CounterWatch.component w);
       CounterComponent.id (CounterWatch.component w);
       CounterWatch.event w; CounterWatch.channel w].
Proof. destruct w as [[ty sc pa i] ev ch]. reflexivity. Qed.

(** What the decoder gives on any buffer: an error, or the record read from
    the first [sizeof] bytes, never anything in between. *)
Lemma CounterEvent_all_or_nothing (data : buffer) :
  (Z.of_nat (List.length data) < sizeof CounterEvent.ctype
   /\ CounterEvent.from_buffer_copy data = Raise ValueError)
  \/ (sizeof CounterEvent.ctype <= Z.of_nat (List.length data)
      /\ CounterEvent.from_buffer_copy data
         = Ret (CounterEvent.load
                  (firstn (Z.to_nat (sizeof CounterEvent.ctype)) data) 0)).
Proof.
  unfold CounterEvent.from_buffer_copy, ctypes.from_buffer_copy.
  destruct (Z.ltb_spec (Z.of_nat (List.length data))
              (sizeof CounterEvent.ctype)) as [Hlt | Hge].
  - left. split; [exact Hlt | reflexivity].
  - right. split; [exact Hge | reflexivity].
Qed.

Example sizeof_CounterComponent : sizeof CounterComponent.ctype = 4.
Proof. reflexivity. Qed.

Example add_watch_code : COUNTER_ADD_WATCH_IOCTL = 0x40063E00.
Proof. reflexivity. Qed.

Example enable_events_code : COUNTER_ENABLE_EVENTS_IOCTL = 0x3E01.
Proof. reflexivity. Qed.

Example disable_events_code : COUNTER_DISABLE_EVENTS_IOCTL = 0x3E02.
Proof. reflexivity. Qed.

(** C1.  For inputs within the field widths (number 8 bits, type 8 bits,
    size 14 bits, direction 2 bits), [_IOC] returns
    [request_nr | (request_type << 8) | (size << 16) | (direction << 30)];
    that number is an unsigned 32-bit value and each field can be read back
    from its own bit range, so the ranges do not overlap.  The result depends
    on the four arguments only. *)
Theorem _IOC_packs_fields (direction request_type request_nr size : Z) :
  ioc_fields_ok direction request_type request_nr size ->
  let code := _IOC direction request_type request_nr size in
  code = Z.lor (Z.lor (Z.lor request_nr (Z.shiftl request_type 8))
                  (Z.shiftl size 16))
           (Z.shiftl direction 30)
  /\ 0 <= code < 2 ^ 32
  /\ ioc_nr code = request_nr
  /\ ioc_type code = request_type
  /\ ioc_size code = size
  /\ ioc_dir code = direction.
Proof.
  intros Hok code.
  assert (Hsum := _IOC_sum _ _ _ _ Hok). fold code in Hsum.
  split.
  { unfold code, _IOC, _IOC_NRBITS, _IOC_TYPEBITS, _IOC_SIZEBITS.
    rewrite Z.shiftl_0_r. apply lor_comm_assoc4. }
  unfold ioc_fields_ok, _IOC_DIRBITS, _IOC_TYPEBITS, _IOC_NRBITS,
    _IOC_SIZEBITS in Hok.
  destruct Hok as (Hd & Ht & Hn & Hs).
  unfold ioc_nr, ioc_type, ioc_size, ioc_dir, _IOC_DIRBITS, _IOC_TYPEBITS,
    _IOC_NRBITS, _IOC_SIZEBITS.
  rewrite !Z.land_ones, !Z.shiftr_div_pow2 by lia.
  rewrite Hsum.
  change (2 ^ 8) with 256 in *. change (2 ^ 16) with 65536 in *.
  change (2 ^ (8 + 8)) with 65536. change (2 ^ (8 + 8 + 14)) with 1073741824.
  change (2 ^ 30) with 1073741824. change (2 ^ 14) with 16384 in *.
  change (2 ^ 2) with 4 in *. change (2 ^ 32) with 4294967296.
  repeat split; try lia.
  all: Z.div_mod_to_equations; lia.
Qed.

Lemma _IOC_packs_fields_witness :
  ioc_fields_ok 1 0x3E 0x00 6
  /\ _IOC 1 0x3E 0x00 6 = 0x40063E00
  /\ ioc_size (_IOC 1 0x3E 0x00 6) = 6.
Proof.
  assert (Hok : ioc_fields_ok 1 0x3E 0x00 6).
  { unfold ioc_fields_ok, _IOC_DIRBITS, _IOC_TYPEBITS, _IOC_NRBITS,
      _IOC_SIZEBITS. lia. }
  split; [exact Hok |].
  split; [reflexivity |].
  exact (proj1 (proj2 (proj2 (proj2 (proj2
           (_IOC_packs_fields 1 0x3E 0x00 6 Hok)))))).
Defined.

(** C2, as the specification words it, fails: the add-watch code cannot both
    carry [sizeof(CounterWatch)] as its payload size and have that size be 4
    bytes, because a watch descriptor occupies 6 bytes. *)
Lemma add_watch_payload_is_not_4 :
  ~ (ioc_dir COUNTER_ADD_WATCH_IOCTL = _IOC_WRITE
     /\ ioc_size COUNTER_ADD_WATCH_IOCTL = sizeof CounterWatch.ctype
     /\ sizeof CounterWatch.ctype = 4).
Proof. intros (_ & _ & H). discriminate H. Qed.

(** C2, amended.  The add-watch code has write direction and its payload
    size is [sizeof(CounterWatch)], which is 6 bytes: the 4 one-byte fields
    of the component reference and 2 further one-byte fields, with no
    padding between or after them. *)
Theorem add_watch_code_fields :
  ioc_dir COUNTER_ADD_WATCH_IOCTL = _IOC_WRITE
  /\ ioc_size COUNTER_ADD_WATCH_IOCTL = sizeof CounterWatch.ctype
  /\ sizeof CounterWatch.ctype = 6
  /\ fields_size CounterComponent._fields_ = 4 * sizeof c_uint8
  /\ fields_size CounterWatch._fields_
     = fields_size CounterComponent._fields_ + 2 * sizeof c_uint8
  /\ sizeof CounterWatch.ctype = fields_size CounterWatch._fields_
  /\ ioc_type COUNTER_ADD_WATCH_IOCTL = 0x3E
  /\ ioc_nr COUNTER_ADD_WATCH_IOCTL = 0x00.
Proof. repeat split. Qed.

(** C3.  The add-watch, enable-events and disable-events codes are pairwise
    distinct, and [_IOC] is a function of its inputs: equal inputs give
    equal codes. *)
Theorem ioctl_codes_distinct_and_deterministic :
  COUNTER_ADD_WATCH_IOCTL <> COUNTER_ENABLE_EVENTS_IOCTL
  /\ COUNTER_ADD_WATCH_IOCTL <> COUNTER_DISABLE_EVENTS_IOCTL
  /\ COUNTER_ENABLE_EVENTS_IOCTL <> COUNTER_DISABLE_EVENTS_IOCTL
  /\ (forall d t n s d' t' n' s',
         ioc_fields_ok d t n s ->
         (d, t, n, s) = (d', t', n', s') ->
         _IOC d t n s = _IOC d' t' n' s').
Proof.
  split; [discriminate |]. split; [discriminate |]. split; [discriminate |].
  intros d t n s d' t' n' s' _ Heq.
  injection Heq as -> -> -> ->. reflexivity.
Qed.

Lemma ioctl_codes_distinct_and_deterministic_witness :
  COUNTER_ENABLE_EVENTS_IOCTL <> COUNTER_DISABLE_EVENTS_IOCTL
  /\ _IOC _IOC_NONE 0x3E 0x01 0 = _IOC 0 62 1 0.
Proof.
  destruct ioctl_codes_distinct_and_deterministic as (_ & _ & Hne & Hdet).
  split; [exact Hne |].
  apply Hdet; [| reflexivity].
  unfold ioc_fields_ok, _IOC_NONE, _IOC_DIRBITS, _IOC_TYPEBITS, _IOC_NRBITS,
    _IOC_SIZEBITS. lia.
Defined.

(** C4.  Encoding a watch descriptor (whose six fields are bytes) to its
    fixed-size byte sequence and decoding that sequence gives back a
    descriptor equal to the original in every field. *)
Theorem CounterWatch_roundtrip (w : CounterWatch.t) :
  CounterWatch.wf w ->
  Z.of_nat (List.length (CounterWatch.to_bytes w)) = sizeof CounterWatch.ctype
  /\ CounterWatch.from_buffer_copy (CounterWatch.to_bytes w) = Ret w.
Proof.
  intros Hwf. rewrite CounterWatch_to_bytes_fields.
  split; [reflexivity |].
  destruct w as [[ty sc pa i] ev ch].
  destruct Hwf as ((Hty & Hsc & Hpa & Hi) & Hev & Hch). simpl in *.
  unfold CounterWatch.from_buffer_copy, ctypes.from_buffer_copy,
    CounterWatch.load, CounterComponent.load, get_uint8.
  simpl.
  rewrite !Z_of_byte_of_Z by assumption.
  reflexivity.
Qed.

Lemma CounterWatch_roundtrip_witness :
  CounterWatch.wf underflow
  /\ CounterWatch.from_buffer_copy (CounterWatch.to_bytes underflow)
     = Ret underflow.
Proof.
  assert (Hwf : CounterWatch.wf underflow).
  { unfold CounterWatch.wf, CounterComponent.wf, is_uint8, underflow.
    simpl. lia. }
  split; [exact Hwf |].
  exact (proj2 (CounterWatch_roundtrip underflow Hwf)).
Defined.

(** C8.  A byte sequence shorter than one event record is rejected by the
    decoder with [ValueError]; no record, partial or whole, comes out of it,
    neither from [CounterEvent.from_buffer_copy] nor from the [read_event]
    closure when [f.read] hands it such bytes. *)
Theorem short_buffer_is_rejected (data : buffer) :
  Z.of_nat (List.length data) < sizeof CounterEvent.ctype ->
  CounterEvent.from_buffer_copy data = Raise ValueError
  /\ decode_read (Some data) = Raise ValueError
  /\ (forall e, CounterEvent.from_buffer_copy data <> Ret e).
Proof.
  intros Hshort.
  destruct (CounterEvent_all_or_nothing data) as [[_ Herr] | [Hlong _]];
    [| lia].
  unfold decode_read. rewrite Herr.
  repeat split. intros e He. discriminate He.
Qed.

Lemma short_buffer_is_rejected_witness :
  Z.of_nat (List.length (CounterWatch.to_bytes overflow))
  < sizeof CounterEvent.ctype
  /\ CounterEvent.from_buffer_copy (CounterWatch.to_bytes overflow)
     = Raise ValueError.
Proof.
  assert (Hshort : Z.of_nat (List.length (CounterWatch.to_bytes overflow))
                   < sizeof CounterEvent.ctype) by reflexivity.
  split; [exact Hshort |].
  exact (proj1 (short_buffer_is_rejected _ Hshort)).
Defined.

(** ** The subscription lifecycle *)

Lemma since_app (w w' : world) (l : list entry) :
  log w' = log w ++ l -> since w w' = l.
Proof.
  intros H. unfold since. rewrite H.
  rewrite skipn_app, skipn_all, Nat.sub_diag. reflexivity.
Qed.

Section Lifecycle.

Variable faults : list entry -> request -> option Z.

Lemma ioctl_open_ok (code : Z) (arg : buffer) (w : world) :
  handle_open w = true ->
  faults (log w) (ReqIoctl code arg) = None ->
  ioctl faults code arg w
  = (record (ReqIoctl code arg) None (effect (ReqIoctl code arg) w), Ret tt).
Proof.
  intros Ho Hf. unfold ioctl, on_open_file, syscall.
  rewrite Ho, Hf. reflexivity.
Qed.

Lemma ioctl_open_fail (code : Z) (arg : buffer) (w : world) (errno : Z) :
  handle_open w = true ->
  faults (log w) (ReqIoctl code arg) = Some errno ->
  ioctl faults code arg w
  = (record (ReqIoctl code arg) (Some errno) w, Raise (OSError errno)).
Proof.
  intros Ho Hf. unfold ioctl, on_open_file, syscall.
  rewrite Ho, Hf. reflexivity.
Qed.

Lemma for_each_lift {A : Type} (l : list A) (f : A -> M world unit)
  (fr : frame) :
  for_each l (fun x => lift (f x)) fr
  = (let (w', r) := for_each l f (os fr) in (mkFrame (stack fr) w', r)).
Proof.
  revert fr. induction l as [| x rest IH]; intros [st w]; simpl.
  - reflexivity.
  - unfold bind, lift at 1. simpl.
    destruct (f x w) as [w1 [[] | e |]]; simpl; try reflexivity.
    rewrite IH. reflexivity.
Qed.

(** The loop over the watches: it stops at the first refused watch. *)
Lemma add_watches_cases (ws : list CounterWatch.t) :
  forall (w w' : world) (r : outcome unit),
    handle_open w = true ->
    for_each ws
      (fun watch =>
         ioctl faults COUNTER_ADD_WATCH_IOCTL (CounterWatch.to_bytes watch))
      w = (w', r) ->
    handle_open w' = true
    /\ nonblocking w' = nonblocking w
    /\ events_enabled w' = events_enabled w
    /\ fifo w' = fifo w /\ hung_up w' = hung_up w
    /\ ((r = Ret tt
         /\ log w' = log w ++ map ok (map add_request ws)
         /\ watches w' = watches w ++ map CounterWatch.to_bytes ws)
        \/ exists pre x post errno,
             ws = pre ++ x :: post
             /\ r = Raise (OSError errno)
             /\ log w'
                = log w ++ map ok (map add_request pre)
                    ++ [(add_request x, Some errno)]).
Proof.
  induction ws as [| x rest IH]; intros w w' r Ho Hrun.
  - simpl in Hrun. unfold ret in Hrun. injection Hrun as <- <-.
    repeat split; try reflexivity; try assumption.
    left. simpl. rewrite !app_nil_r. repeat split.
  - simpl in Hrun. unfold bind in Hrun.
    destruct (faults (log w)
                (ReqIoctl COUNTER_ADD_WATCH_IOCTL (CounterWatch.to_bytes x)))
      as [errno |] eqn:Hf.
    + rewrite (ioctl_open_fail _ _ _ _ Ho Hf) in Hrun.
      injection Hrun as <- <-.
      repeat split; try assumption.
      right. exists [], x, rest, errno. repeat split.
    + rewrite (ioctl_open_ok _ _ _ Ho Hf) in Hrun.
      apply IH in Hrun; [| exact Ho].
      destruct Hrun as (Ho' & Hnb & Hen & Hfi & Hhu & Hcases).
      split; [exact Ho' |]. split; [exact Hnb |]. split; [exact Hen |].
      split; [exact Hfi |]. split; [exact Hhu |].
      destruct Hcases as [(-> & Hlog & Hws)
                         | (pre & y & post & errno & -> & -> & Hlog)].
      * left. split; [reflexivity |]. split.
        -- rewrite Hlog. simpl. rewrite <- app_assoc. reflexivity.
        -- rewrite Hws. simpl. rewrite <- app_assoc. reflexivity.
      * right. exists (x :: pre), y, post, errno.
        split; [reflexivity |]. split; [reflexivity |].
        rewrite Hlog. simpl. rewrite <- app_assoc. reflexivity.
Qed.

(** Every call of [subscribe_events] ends in one of the three ways. *)
Lemma subscribe_events_cases dev ws w w' r :
  subscribe_events faults dev ws w = (w', r) -> subscribed dev ws w w' r.
Proof.
  unfold subscribe_events, with_ExitStack.
  unfold bind at 1. unfold lift at 1, open, syscall. simpl.
  destruct (faults (log w) (ReqOpen dev "rb")) as [errno |] eqn:Hopen.
  - simpl. intros H. injection H as <- <-.
    apply OpenFailed; reflexivity.
  - unfold bind at 1, push at 1. simpl.
    unfold bind at 1, lift at 1, fcntl, on_open_file, syscall. simpl.
    destruct (faults (log w ++ [(ReqOpen dev "rb", None)])
                (ReqFcntl F_SETFL O_NONBLOCK)) as [errno |] eqn:Hfcntl.
    + simpl. intros H. injection H as <- <-.
      apply (RequestFailed dev ws _ _ [] (map add_request ws ++ [enable_request])
               (ReqFcntl F_SETFL O_NONBLOCK) errno); try reflexivity.
      simpl. rewrite <- !app_assoc. reflexivity.
    + set (w2 := record (ReqFcntl F_SETFL O_NONBLOCK) None _).
      unfold bind at 1. rewrite for_each_lift. simpl.
      destruct (for_each ws _ w2) as [w3 r3] eqn:Hloop.
      apply add_watches_cases in Hloop; [| reflexivity].
      destruct Hloop as (Ho3 & Hnb3 & Hen3 & Hfi3 & Hhu3 & Hcases).
      destruct Hcases as [(-> & Hlog3 & Hws3)
                         | (pre & x & post & errno & -> & -> & Hlog3)].
      * unfold bind at 1, lift at 1. simpl.
        destruct (faults (log w3) (ReqIoctl COUNTER_ENABLE_EVENTS_IOCTL []))
          as [errno |] eqn:Henable.
        -- rewrite (ioctl_open_fail _ _ _ _ Ho3 Henable).
           unfold ExitStack_exit, unwind, run_callback, file_close.
           simpl. rewrite Ho3. simpl.
           intros H. injection H as <- <-.
           apply (RequestFailed dev ws _ _
                    (ReqFcntl F_SETFL O_NONBLOCK :: map add_request ws) []
                    enable_request errno); simpl.
           ++ reflexivity.
           ++ rewrite Hlog3. simpl. rewrite <- !app_assoc.
              reflexivity.
           ++ reflexivity.
           ++ exact Hen3.
        -- rewrite (ioctl_open_ok _ _ _ Ho3 Henable).
           unfold bind, push, pop_all, ExitStack_exit, unwind. simpl.
           intros H. injection H as <- <-.
           apply Subscribed; simpl.
           ++ rewrite Hlog3. unfold planned. simpl.
              rewrite !map_app, <- !app_assoc. reflexivity.
           ++ exact Ho3.
           ++ exact Hnb3.
           ++ reflexivity.
           ++ exact Hws3.
           ++ exact Hfi3.
           ++ exact Hhu3.
      * unfold ExitStack_exit, unwind, run_callback, file_close.
        simpl. rewrite Ho3. simpl.
        intros H. injection H as <- <-.
        apply (RequestFailed dev (pre ++ x :: post) _ _
                 (ReqFcntl F_SETFL O_NONBLOCK :: map add_request pre)
                 (map add_request post ++ [enable_request])
                 (add_request x) errno); simpl.
        -- unfold planned. rewrite map_app. simpl.
           rewrite <- !app_assoc. reflexivity.
        -- rewrite Hlog3. simpl. rewrite <- !app_assoc. reflexivity.
        -- reflexivity.
        -- exact Hen3.
Qed.

(** The first call of the unsubscribe closure, on an open handle. *)
Lemma unsubscribe_run (w : world) :
  handle_open w = true ->
  unsubscribe faults [IoctlCallback COUNTER_DISABLE_EVENTS_IOCTL; FileExit] w
  = match faults (log w) disable_request with
    | None =>
        ([], record ReqClose None
               (effect ReqClose
                  (record disable_request None (effect disable_request w))),
         Ret tt)
    | Some errno =>
        ([], record ReqClose None
               (effect ReqClose (record disable_request (Some errno) w)),
         Raise (OSError errno))
    end.
Proof.
  intros Ho.
  unfold unsubscribe, ExitStack_close, ExitStack_exit, unwind, run_callback,
    ioctl, on_open_file, syscall, file_close, disable_request.
  simpl. rewrite Ho.
  destruct (faults (log w) (ReqIoctl COUNTER_DISABLE_EVENTS_IOCTL []));
    simpl; rewrite Ho; reflexivity.
Qed.

(** A call of the unsubscribe closure once its stack is empty. *)
Lemma unsubscribe_done (w : world) : unsubscribe faults [] w = ([], w, Ret tt).
Proof. destruct w; reflexivity. Qed.

End Lifecycle.

(** A refused request is not among accepted ones. *)
Lemma not_in_map_ok (q : request) (errno : Z) (l : list request) :
  ~ In (q, Some errno) (map ok l).
Proof.
  intros Hin. apply in_map_iff in Hin.
  destruct Hin as (x & Hx & _). discriminate Hx.
Qed.

(** C5.  When an add-watch request or the enable-events request of
    [subscribe_events] is refused, every request before it had been
    accepted (it is the first failure), nothing but the closing of the
    handle follows it, the call raises that failure, the handle is closed
    and events are not enabled. *)
Theorem subscribe_events_failure_releases
  (faults : list entry -> request -> option Z) (dev : string)
  (ws : list CounterWatch.t) (w w' : world) (r : outcome subscription)
  (code : Z) (arg : buffer) (errno : Z) :
  events_enabled w = false ->
  subscribe_events faults dev ws w = (w', r) ->
  In (ReqIoctl code arg, Some errno) (since w w') ->
  (code = COUNTER_ADD_WATCH_IOCTL \/ code = COUNTER_ENABLE_EVENTS_IOCTL)
  /\ (exists pre,
         since w w'
         = map ok pre ++ [(ReqIoctl code arg, Some errno); (ReqClose, None)])
  /\ r = Raise (OSError errno)
  /\ handle_open w' = false
  /\ events_enabled w' = false.
Proof.
  intros Hen Hrun Hin.
  apply subscribe_events_cases in Hrun.
  destruct Hrun as [Hlog _ _ _ _ _ _ | e Hlog _ _ | pre post q e Hplan Hlog Ho Hen'].
  - rewrite (since_app _ _ _ Hlog) in Hin.
    apply not_in_map_ok in Hin. contradiction.
  - rewrite (since_app _ _ _ Hlog) in Hin.
    destruct Hin as [Heq | []]. discriminate Heq.
  - rewrite (since_app _ _ _ Hlog) in Hin |- *.
    apply in_app_or in Hin. destruct Hin as [Hin | [Heq | [Heq | []]]].
    + apply not_in_map_ok in Hin. contradiction.
    + injection Heq as -> ->.
      split.
      { unfold planned in Hplan. injection Hplan as Hplan.
        assert (Hq : In (ReqIoctl code arg)
                       (ReqFcntl F_SETFL O_NONBLOCK
                          :: map add_request ws ++ [enable_request])).
        { rewrite Hplan. apply in_or_app. right. left. reflexivity. }
        destruct Hq as [Hq | Hq]; [discriminate Hq |].
        apply in_app_or in Hq. destruct Hq as [Hq | [Hq | []]].
        - apply in_map_iff in Hq. destruct Hq as (x & Hx & _).
          injection Hx as <- _. left. reflexivity.
        - injection Hq as <- _. right. reflexivity. }
      split; [exists (ReqOpen dev "rb" :: pre); reflexivity |].
      split; [reflexivity |].
      split; [exact Ho |].
      rewrite Hen'. exact Hen.
    + discriminate Heq.
Qed.

Lemma subscribe_events_failure_releases_witness :
  snd (subscribe_events (fails_at 3 22) counter2 [overflow; underflow] boot)
  = Raise (OSError 22)
  /\ handle_open
       (fst (subscribe_events (fails_at 3 22) counter2 [overflow; underflow]
               boot)) = false.
Proof.
  destruct (subscribe_events_failure_releases (fails_at 3 22) counter2
              [overflow; underflow] boot
              (fst (subscribe_events (fails_at 3 22) counter2
                      [overflow; underflow] boot))
              (snd (subscribe_events (fails_at 3 22) counter2
                      [overflow; underflow] boot))
              COUNTER_ADD_WATCH_IOCTL (CounterWatch.to_bytes underflow) 22)
    as (_ & _ & Hr & Ho & _).
  - reflexivity.
  - reflexivity.
  - vm_compute. right. right. right. left. reflexivity.
  - split; [exact Hr | exact Ho].
Defined.

(** C6.  The unsubscribe closure that [subscribe_events] returned, called
    while the handle is open, makes exactly one disable-events request and
    then closes the handle, in that order; called again, it makes no request,
    changes nothing and returns without raising. *)
Theorem unsubscribe_then_noop
  (faults : list entry -> request -> option Z) (dev : string)
  (ws : list CounterWatch.t) (w0 w1 : world) (s : subscription) (w : world) :
  subscribe_events faults dev ws w0 = (w1, Ret s) ->
  handle_open w = true ->
  exists s' w' r',
    unsubscribe faults s w = (s', w', r')
    /\ map fst (since w w') = [disable_request; ReqClose]
    /\ handle_open w' = false
    /\ unsubscribe faults s' w' = (s', w', Ret tt).
Proof.
  intros Hrun Ho.
  apply subscribe_events_cases in Hrun.
  inversion Hrun as [Hlog _ _ _ _ _ _ Hs | |]; subst s. clear Hrun.
  rewrite (unsubscribe_run faults w Ho).
  destruct (faults (log w) disable_request) as [errno |].
  - eexists _, _, _. split; [reflexivity |].
    rewrite unsubscribe_done. simpl fst. simpl snd.
    split.
    { erewrite since_app; [| simpl; rewrite <- app_assoc; reflexivity].
      reflexivity. }
    split; reflexivity.
  - eexists _, _, _. split; [reflexivity |].
    rewrite unsubscribe_done. simpl fst. simpl snd.
    split.
    { erewrite since_app; [| simpl; rewrite <- app_assoc; reflexivity].
      reflexivity. }
    split; reflexivity.
Qed.

Lemma unsubscribe_then_noop_witness :
  exists s' w' r',
    unsubscribe never_fails
      [IoctlCallback COUNTER_DISABLE_EVENTS_IOCTL; FileExit] subscribed_world
    = (s', w', r')
    /\ map fst (since subscribed_world w') = [disable_request; ReqClose]
    /\ unsubscribe never_fails s' w' = (s', w', Ret tt).
Proof.
  destruct (unsubscribe_then_noop never_fails counter2 [overflow; underflow]
              boot subscribed_world
              [IoctlCallback COUNTER_DISABLE_EVENTS_IOCTL; FileExit]
              subscribed_world)
    as (s' & w' & r' & Hrun & Hreq & _ & Hagain).
  - reflexivity.
  - reflexivity.
  - exists s', w', r'. split; [exact Hrun |]. split; [exact Hreq | exact Hagain].
Defined.

(** C7.  When the disable-events request made by the unsubscribe closure is
    refused, the closure raises that failure, and the handle has been closed
    all the same: the log shows the refused request followed by the close. *)
Theorem unsubscribe_closes_when_disable_fails
  (faults : list entry -> request -> option Z) (dev : string)
  (ws : list CounterWatch.t) (w0 w1 : world) (s : subscription) (w : world)
  (errno : Z) :
  subscribe_events faults dev ws w0 = (w1, Ret s) ->
  handle_open w = true ->
  faults (log w) disable_request = Some errno ->
  exists w',
    unsubscribe faults s w = ([], w', Raise (OSError errno))
    /\ since w w' = [(disable_request, Some errno); (ReqClose, None)]
    /\ handle_open w' = false.
Proof.
  intros Hrun Ho Hfail.
  apply subscribe_events_cases in Hrun.
  inversion Hrun as [Hlog _ _ _ _ _ _ Hs | |]; subst s. clear Hrun.
  rewrite (unsubscribe_run faults w Ho), Hfail.
  eexists. split; [reflexivity |].
  split; [| reflexivity].
  apply since_app. simpl. rewrite <- app_assoc. reflexivity.
Qed.

Lemma unsubscribe_closes_when_disable_fails_witness :
  exists w',
    unsubscribe (fails_disable 16)
      [IoctlCallback COUNTER_DISABLE_EVENTS_IOCTL; FileExit] subscribed_world
    = ([], w', Raise (OSError 16))
    /\ handle_open w' = false.
Proof.
  destruct (unsubscribe_closes_when_disable_fails (fails_disable 16) counter2
              [overflow; underflow] boot subscribed_world
              [IoctlCallback COUNTER_DISABLE_EVENTS_IOCTL; FileExit]
              subscribed_world 16)
    as (w' & Hrun & _ & Ho).
  - reflexivity.
  - reflexivity.
  - reflexivity.
  - exists w'. split; [exact Hrun | exact Ho].
Defined.

(** When [f.read] yields [None]. *)
Lemma file_read_absent (faults : list entry -> request -> option Z)
  (size : Z) (w w' : world) :
  file_read faults size w = (w', Ret None) ->
  handle_open w = true /\ nonblocking w = true /\ fifo w = []
  /\ hung_up w = false /\ w' = record (ReqRead size) None w.
Proof.
  unfold file_read, on_open_file, bind, syscall, ret.
  destruct w as [ho nb wa en fi hu lg]; simpl.
  destruct ho; [| discriminate].
  destruct fi as [| b rest].
  - destruct hu.
    + destruct (faults lg (ReqRead size)); discriminate.
    + destruct nb; [| discriminate].
      destruct (faults lg (ReqRead size)); [discriminate |].
      intros H. injection H as <-. repeat split.
      unfold set_fifo. simpl. rewrite skipn_nil. reflexivity.
  - destruct (faults lg (ReqRead size)); discriminate.
Qed.

(** In non-blocking mode [read_event] always comes back. *)
Lemma read_event_never_blocks (faults : list entry -> request -> option Z)
  (w : world) :
  nonblocking w = true -> snd (read_event faults w) <> Block.
Proof.
  intros Hnb. unfold read_event, bind, file_read, on_open_file.
  remember (sizeof CounterEvent.ctype) as n eqn:Hn.
  destruct (handle_open w); [| discriminate].
  rewrite Hnb.
  assert (Hdec : forall data, decode_read data <> Block).
  { intros [bs |]; [| discriminate]. unfold decode_read.
    destruct (CounterEvent_all_or_nothing bs) as [[_ ->] | [_ ->]];
      discriminate. }
  destruct (fifo w) as [| b rest]; [destruct (hung_up w) |];
    unfold bind, syscall, ret, lift_outcome;
    destruct (faults (log w) (ReqRead n)); simpl;
    try discriminate; exact (Hdec (Some _)).
Qed.

(** C9, as the specification words it, fails: an empty read result is not
    taken for "no data".  At the end of the device's stream [f.read] yields
    [b''] and [read_event] raises [ValueError] instead of returning [None]. *)
Lemma read_event_empty_read_raises :
  ~ (forall (faults : list entry -> request -> option Z) (w w' : world)
            (data : option buffer),
        file_read faults (sizeof CounterEvent.ctype) w = (w', Ret data) ->
        data = None \/ data = Some [] ->
        read_event faults w = (w', Ret None)).
Proof.
  intros Hclaim.
  specialize (Hclaim never_fails (hang_up subscribed_world)
                (fst (file_read never_fails (sizeof CounterEvent.ctype)
                        (hang_up subscribed_world)))
                (Some []) eq_refl (or_intror eq_refl)).
  discriminate Hclaim.
Qed.

Example read_event_at_end_of_stream :
  snd (read_event never_fails (hang_up subscribed_world)) = Raise ValueError.
Proof. reflexivity. Qed.

(** C9, amended.  Whenever [f.read] yields the absent result [None] (which
    it does only on an open handle in non-blocking mode with nothing ready
    and the stream not at its end), [read_event] returns [None]: it does not
    block and it does not raise. *)
Theorem read_event_absent_read_returns_None
  (faults : list entry -> request -> option Z) (w w' : world) :
  file_read faults (sizeof CounterEvent.ctype) w = (w', Ret None) ->
  read_event faults w = (w', Ret None)
  /\ nonblocking w = true /\ fifo w = [] /\ hung_up w = false
  /\ fifo w' = [].
Proof.
  intros Hread.
  unfold read_event, bind. rewrite Hread.
  apply file_read_absent in Hread.
  destruct Hread as (_ & Hnb & Hfifo & Hhu & ->).
  repeat split; assumption.
Qed.

Lemma read_event_absent_read_returns_None_witness :
  snd (read_event never_fails subscribed_world) = Ret None.
Proof.
  pose proof (read_event_absent_read_returns_None never_fails subscribed_world
                (fst (file_read never_fails (sizeof CounterEvent.ctype)
                        subscribed_world)) eq_refl) as H.
  destruct H as (H & _). rewrite H. reflexivity.
Defined.

Example sizeof_CounterEvent : sizeof CounterEvent.ctype = 24.
Proof. reflexivity. Qed.

Example offsets_CounterEvent :
  map (offsetof CounterEvent._fields_) ["timestamp"; "value"; "watch"; "status"]
  = [0; 8; 16; 22].
Proof. reflexivity. Qed.



(** * Further properties *)

(** ** Request numbers, continued *)

(** X1.  Within the field widths [_IOC] is injective: two requests with the
    same number have the same direction, type, number and size, so no two
    distinct valid requests share a code. *)
Theorem _IOC_injective (d t n s d' t' n' s' : Z) :
  ioc_fields_ok d t n s -> ioc_fields_ok d' t' n' s' ->
  _IOC d t n s = _IOC d' t' n' s' ->
  d = d' /\ t = t' /\ n = n' /\ s = s'.
Proof.
  intros Hok Hok' Heq.
  rewrite (_IOC_sum _ _ _ _ Hok), (_IOC_sum _ _ _ _ Hok') in Heq.
  unfold ioc_fields_ok, _IOC_DIRBITS, _IOC_TYPEBITS, _IOC_NRBITS,
    _IOC_SIZEBITS in Hok, Hok'.
  change (2 ^ 8) with 256 in *. change (2 ^ 16) with 65536 in *.
  change (2 ^ 30) with 1073741824 in *. change (2 ^ 14) with 16384 in *.
  change (2 ^ 2) with 4 in *.
  lia.
Qed.

Lemma _IOC_injective_witness :
  _IOC_WRITE = 1 /\ sizeof CounterWatch.ctype = 6.
Proof.
  assert (Hok : ioc_fields_ok _IOC_WRITE 0x3E 0x00 (sizeof CounterWatch.ctype)).
  { unfold ioc_fields_ok, _IOC_WRITE, _IOC_DIRBITS, _IOC_TYPEBITS,
      _IOC_NRBITS, _IOC_SIZEBITS.
    change (sizeof CounterWatch.ctype) with 6. lia. }
  assert (Hok' : ioc_fields_ok 1 0x3E 0x00 6).
  { unfold ioc_fields_ok, _IOC_DIRBITS, _IOC_TYPEBITS, _IOC_NRBITS,
      _IOC_SIZEBITS. lia. }
  destruct (_IOC_injective _IOC_WRITE 0x3E 0x00 (sizeof CounterWatch.ctype)
              1 0x3E 0x00 6 Hok Hok' eq_refl) as (Hd & _ & _ & Hs).
  split; [exact Hd | exact Hs].
Defined.

(** X2.  [_IOC] neither masks nor rejects a size that does not fit its 14
    bits: the excess bit lands in the direction field, so a size of
    [s + 2^14] gives the code of size [s] with the write bit set. *)
Theorem _IOC_oversize_leaks (d t n s : Z) :
  0 <= s < 2 ^ _IOC_SIZEBITS ->
  _IOC d t n (s + 2 ^ _IOC_SIZEBITS) = _IOC (Z.lor d 1) t n s.
Proof.
  unfold _IOC_SIZEBITS. intros Hs.
  assert (Hsplit : s + 2 ^ 14 = Z.lor s (Z.shiftl 1 14)).
  { rewrite (lor_shiftl_disjoint s 1 14); lia. }
  unfold _IOC, _IOC_NRBITS, _IOC_TYPEBITS, _IOC_SIZEBITS.
  change (0 + 8 + 8 + 14) with 30. change (0 + 8 + 8) with 16.
  rewrite Hsplit, !Z.shiftl_lor, Z.shiftl_shiftl by lia.
  change (14 + 16) with 30.
  apply Z.bits_inj'; intros i _.
  rewrite !Z.lor_spec.
  destruct (Z.testbit (Z.shiftl d 30) i), (Z.testbit (Z.shiftl t (0 + 8)) i),
    (Z.testbit (Z.shiftl n 0) i), (Z.testbit (Z.shiftl s 16) i),
    (Z.testbit (Z.shiftl 1 30) i); reflexivity.
Qed.

Lemma _IOC_oversize_leaks_witness :
  _IOC _IOC_NONE 0x3E 0x01 (2 ^ 14) = _IOC _IOC_WRITE 0x3E 0x01 0.
Proof.
  assert (Hs : 0 <= 0 < 2 ^ _IOC_SIZEBITS) by (unfold _IOC_SIZEBITS; lia).
  exact (_IOC_oversize_leaks _IOC_NONE 0x3E 0x01 0 Hs).
Defined.

(** ** Event records *)

Lemma Z_of_byte_of_Z_mod (v : Z) : Z_of_byte (byte_of_Z v) = v mod 256.
Proof.
  assert (H : byte_of_Z v = byte_of_Z (v mod 256)).
  { unfold byte_of_Z. rewrite Z.mod_mod by lia. reflexivity. }
  rewrite H. apply Z_of_byte_of_Z. unfold is_uint8.
  apply Z.mod_pos_bound. lia.
Qed.

Lemma le_value_le_bytes (n : nat) :
  forall v, 0 <= v < 256 ^ Z.of_nat n -> le_value (le_bytes n v) = v.
Proof.
  induction n as [| k IH]; intros v Hv.
  - simpl in *. lia.
  - rewrite Nat2Z.inj_succ, Z.pow_succ_r in Hv by lia.
    cbn [le_bytes le_value].
    rewrite Z_of_byte_of_Z_mod, IH.
    + pose proof (Z.div_mod v 256). lia.
    + split; [apply Z.div_pos; lia |].
      apply Z.div_lt_upper_bound; lia.
Qed.


Lemma length_le_bytes (n : nat) (v : Z) : List.length (le_bytes n v) = n.
Proof. revert v. induction n; intros v; simpl; [| rewrite IHn]; reflexivity. Qed.

Lemma length_CounterEvent_to_bytes (e : CounterEvent.t) :
  List.length (CounterEvent.to_bytes e) = 24%nat.
Proof. destruct e as [ts v [[ty sc pa i] ev ch] st]. reflexivity. Qed.

Lemma CounterEvent_load_to_bytes (e : CounterEvent.t) :
  CounterEvent.wf e -> CounterEvent.load (CounterEvent.to_bytes e) 0 = e.
Proof.
  destruct e as [ts v [[ty sc pa i] ev ch] st].
  intros (Hts & Hv & ((Hty & Hsc & Hpa & Hi) & Hev & Hch) & Hst).
  simpl in Hts, Hv, Hty, Hsc, Hpa, Hi, Hev, Hch, Hst.
  change (CounterEvent.load
            (CounterEvent.to_bytes
               (CounterEvent.mk ts v
                  (CounterWatch.mk (CounterComponent.mk ty sc pa i) ev ch) st))
            0)
    with (CounterEvent.mk (le_value (le_bytes 8 ts)) (le_value (le_bytes 8 v))
            (CounterWatch.mk
               (CounterComponent.mk (Z_of_byte (byte_of_Z ty))
                  (Z_of_byte (byte_of_Z sc)) (Z_of_byte (byte_of_Z pa))
                  (Z_of_byte (byte_of_Z i)))
               (Z_of_byte (byte_of_Z ev)) (Z_of_byte (byte_of_Z ch)))
            (Z_of_byte (byte_of_Z st))).
  rewrite !Z_of_byte_of_Z by assumption.
  rewrite !le_value_le_bytes by (unfold is_uint64 in *; simpl; lia).
  reflexivity.
Qed.

Lemma CounterEvent_decode_prefix (e : CounterEvent.t) (extra : buffer) :
  CounterEvent.wf e ->
  CounterEvent.from_buffer_copy (CounterEvent.to_bytes e ++ extra) = Ret e.
Proof.
  intros Hwf.
  pose proof (length_CounterEvent_to_bytes e) as Hlen.
  destruct (CounterEvent_all_or_nothing (CounterEvent.to_bytes e ++ extra))
    as [[Hshort _] | [_ ->]].
  - rewrite length_app, Hlen in Hshort.
    change (sizeof CounterEvent.ctype) with 24 in Hshort. lia.
  - change (Z.to_nat (sizeof CounterEvent.ctype)) with 24%nat.
    rewrite firstn_app, Hlen, Nat.sub_diag, firstn_O, app_nil_r.
    rewrite <- Hlen at 1. rewrite firstn_all.
    rewrite (CounterEvent_load_to_bytes e Hwf). reflexivity.
Qed.

Lemma CounterEvent_decode_exact (e : CounterEvent.t) :
  CounterEvent.wf e ->
  CounterEvent.from_buffer_copy (CounterEvent.to_bytes e) = Ret e.
Proof.
  intros Hwf. rewrite <- (app_nil_r (CounterEvent.to_bytes e)).
  apply CounterEvent_decode_prefix. exact Hwf.
Qed.

(** X3.  An event record whose fields fit their widths encodes to 24 bytes
    and decodes back to itself, also when further bytes follow it in the
    buffer: the decoder reads the first [sizeof(CounterEvent)] bytes only. *)
Theorem CounterEvent_roundtrip (e : CounterEvent.t) (extra : buffer) :
  CounterEvent.wf e ->
  Z.of_nat (List.length (CounterEvent.to_bytes e)) = sizeof CounterEvent.ctype
  /\ CounterEvent.from_buffer_copy (CounterEvent.to_bytes e) = Ret e
  /\ CounterEvent.from_buffer_copy (CounterEvent.to_bytes e ++ extra) = Ret e.
Proof.
  intros Hwf. split.
  { rewrite length_CounterEvent_to_bytes. reflexivity. }
  split.
  - apply CounterEvent_decode_exact. exact Hwf.
  - apply CounterEvent_decode_prefix. exact Hwf.
Qed.

Lemma overflow_event_wf : CounterEvent.wf overflow_event.
Proof.
  unfold CounterEvent.wf, CounterWatch.wf, CounterComponent.wf, is_uint64,
    is_uint8, overflow_event, overflow. simpl. lia.
Qed.

Lemma CounterEvent_roundtrip_witness :
  CounterEvent.wf overflow_event
  /\ CounterEvent.from_buffer_copy
       (CounterEvent.to_bytes overflow_event
          ++ CounterWatch.to_bytes underflow) = Ret overflow_event.
Proof.
  split; [exact overflow_event_wf |].
  exact (proj2 (proj2 (CounterEvent_roundtrip overflow_event
                         (CounterWatch.to_bytes underflow)
                         overflow_event_wf))).
Defined.

Lemma CounterEventType_of_value_out (v : Z) :
  ~ 0 <= v <= 6 -> CounterEventType.of_value v = Raise ValueError.
Proof.
  intros Hv. destruct v as [| p | p]; try reflexivity; [lia |].
  do 3 (destruct p as [p | p |]; try reflexivity; try lia).
Qed.

Lemma CounterEventType_of_value_in (v : Z) :
  0 <= v <= 6 ->
  exists m, CounterEventType.of_value v = Ret m /\ CounterEventType.value m = v.
Proof.
  intros Hv.
  assert (Hcases : v = 0 \/ v = 1 \/ v = 2 \/ v = 3 \/ v = 4 \/ v = 5 \/ v = 6)
    by lia.
  destruct Hcases as [-> | [-> | [-> | [-> | [-> | [-> | ->]]]]]];
    eexists; split; reflexivity.
Qed.

Lemma CounterEventType_value_range (m : CounterEventType.t) :
  0 <= CounterEventType.value m <= 6.
Proof. destruct m; simpl; lia. Qed.

Lemma CounterEventType_value_inj (a b : CounterEventType.t) :
  CounterEventType.value a = CounterEventType.value b -> a = b.
Proof. destruct a, b; simpl; intros H; try reflexivity; discriminate H. Qed.

(** X5.  [event_type] converts the event byte of the watch through
    [CounterEventType]: it returns the member whose value is that byte, and
    raises [ValueError] exactly when the byte is not one of 0..6 (the decoder
    itself accepts any byte). *)
Theorem event_type_conversion (e : CounterEvent.t) :
  (forall m,
      CounterEvent_event_type e = Ret m
      <-> CounterEventType.value m = CounterWatch.event (CounterEvent.watch e))
  /\ (CounterEvent_event_type e = Raise ValueError
      <-> ~ 0 <= CounterWatch.event (CounterEvent.watch e) <= 6)
  /\ CounterEvent_event_type e <> Block.
Proof.
  unfold CounterEvent_event_type, CounterEvent.event_type.
  set (v := CounterWatch.event (CounterEvent.watch e)).
  destruct (Z_le_dec 0 v) as [H0 | H0]; [destruct (Z_le_dec v 6) as [H6 | H6] |].
  - destruct (CounterEventType_of_value_in v (conj H0 H6)) as (m0 & -> & Hm0).
    split; [| split]; [| | discriminate].
    + intros m. split.
      * intros H. injection H as <-. exact Hm0.
      * intros H. rewrite <- Hm0 in H.
        apply CounterEventType_value_inj in H. rewrite H. reflexivity.
    + split; [discriminate | lia].
  - rewrite (CounterEventType_of_value_out v) by lia.
    split; [| split]; [| | discriminate].
    + intros m. split; [discriminate |].
      pose proof (CounterEventType_value_range m). lia.
    + split; [lia | reflexivity].
  - rewrite (CounterEventType_of_value_out v) by lia.
    split; [| split]; [| | discriminate].
    + intros m. split; [discriminate |].
      pose proof (CounterEventType_value_range m). lia.
    + split; [lia | reflexivity].
Qed.









Lemma CounterComponentType_of_value_cases (v : Z) :
  (0 <= v <= 5 /\ exists m, CounterComponentType.of_value v = Ret m)
  \/ (~ 0 <= v <= 5 /\ CounterComponentType.of_value v = Raise ValueError).
Proof.
  destruct (Z_le_dec 0 v) as [H0 | H0]; [destruct (Z_le_dec v 5) as [H5 | H5] |].
  - left. split; [lia |].
    assert (Hc : v = 0 \/ v = 1 \/ v = 2 \/ v = 3 \/ v = 4 \/ v = 5) by lia.
    destruct Hc as [-> | [-> | [-> | [-> | [-> | ->]]]]];
      eexists; reflexivity.
  - right. split; [lia |].
    destruct v as [| p | p]; try lia.
    do 3 (destruct p as [p | p |]; try reflexivity; try lia).
  - right. split; [lia |]. destruct v as [| p | p]; try lia. reflexivity.
Qed.

Lemma CounterScope_of_value_cases (v : Z) :
  (0 <= v <= 2 /\ exists m, CounterScope.of_value v = Ret m)
  \/ (~ 0 <= v <= 2 /\ CounterScope.of_value v = Raise ValueError).
Proof.
  destruct (Z_le_dec 0 v) as [H0 | H0]; [destruct (Z_le_dec v 2) as [H2 | H2] |].
  - left. split; [lia |].
    assert (Hc : v = 0 \/ v = 1 \/ v = 2) by lia.
    destruct Hc as [-> | [-> | ->]]; eexists; reflexivity.
  - right. split; [lia |].
    destruct v as [| p | p]; try lia.
    do 2 (destruct p as [p | p |]; try reflexivity; try lia).
  - right. split; [lia |]. destruct v as [| p | p]; try lia. reflexivity.
Qed.

Lemma CounterEventType_of_value_cases (v : Z) :
  (0 <= v <= 6 /\ exists m, CounterEventType.of_value v = Ret m)
  \/ (~ 0 <= v <= 6 /\ CounterEventType.of_value v = Raise ValueError).
Proof.
  destruct (Z_le_dec 0 v) as [H0 | H0]; [destruct (Z_le_dec v 6) as [H6 | H6] |].
  - left. split; [lia |].
    destruct (CounterEventType_of_value_in v (conj H0 H6)) as (m & Hm & _).
    exists m. exact Hm.
  - right. split; [lia |]. apply CounterEventType_of_value_out. lia.
  - right. split; [lia |]. apply CounterEventType_of_value_out. lia.
Qed.

(** X6.  [repr] of an event record yields a text exactly when the component
    type, the scope and the event kind of its watch are members of their
    enumerations, and raises [ValueError] otherwise: a record the decoder
    accepted may still not be printable. *)
Theorem CounterEvent_repr_raises_on_unknown (e : CounterEvent.t) :
  (printable (CounterEvent.watch e)
   /\ exists text, CounterEvent_repr e = Ret text)
  \/ (~ printable (CounterEvent.watch e)
      /\ CounterEvent_repr e = Raise ValueError).
Proof.
  destruct e as [ts v [[ty sc pa i] ev ch] st].
  unfold printable, CounterEvent_repr, CounterWatch_repr,
    CounterComponent_repr, and_then.
  cbn [CounterEvent.watch CounterWatch.component CounterWatch.event
       CounterComponent.type CounterComponent.scope].
  destruct (CounterComponentType_of_value_cases ty)
    as [[Hty (mty & ->)] | [Hty ->]];
    [| right; split; [lia | reflexivity]].
  destruct (CounterScope_of_value_cases sc)
    as [[Hsc (msc & ->)] | [Hsc ->]];
    [| right; split; [lia | reflexivity]].
  destruct (CounterEventType_of_value_cases ev)
    as [[Hev (mev & ->)] | [Hev ->]];
    [| right; split; [lia | reflexivity]].
  left. split; [repeat split; lia |]. eexists. reflexivity.
Qed.

(** ** The subscription lifecycle, continued *)

Lemma accepts_app (faults : list entry -> request -> option Z)
  (reqs rest : list request) :
  forall lg,
    accepts faults lg (reqs ++ rest)
    = (accepts faults lg reqs
       && accepts faults (lg ++ map ok reqs) rest)%bool.
Proof.
  induction reqs as [| q reqs IH]; intros lg; simpl.
  - rewrite app_nil_r. reflexivity.
  - destruct (faults lg q); [reflexivity |].
    rewrite IH, <- app_assoc. reflexivity.
Qed.

(** The log of a call tells whether the kernel accepted the requests. *)
Lemma add_watches_accepts (faults : list entry -> request -> option Z)
  (ws : list CounterWatch.t) :
  forall (w w' : world) (r : outcome unit),
    handle_open w = true ->
    for_each ws
      (fun watch =>
         ioctl faults COUNTER_ADD_WATCH_IOCTL (CounterWatch.to_bytes watch))
      w = (w', r) ->
    accepts faults (log w) (map add_request ws)
    = match r with Ret _ => true | _ => false end.
Proof.
  induction ws as [| x rest IH]; intros w w' r Ho Hrun.
  - simpl in Hrun. unfold ret in Hrun. injection Hrun as <- <-. reflexivity.
  - simpl in Hrun |- *. unfold bind in Hrun. fold (add_request x).
    unfold add_request at 1.
    destruct (faults (log w)
                (ReqIoctl COUNTER_ADD_WATCH_IOCTL (CounterWatch.to_bytes x)))
      as [errno |] eqn:Hf.
    + rewrite (ioctl_open_fail _ _ _ _ _ Ho Hf) in Hrun.
      injection Hrun as <- <-. reflexivity.
    + rewrite (ioctl_open_ok _ _ _ _ Ho Hf) in Hrun.
      apply IH in Hrun; [| exact Ho]. exact Hrun.
Qed.

(** [subscribe_events] returns exactly when the kernel accepts every planned
    request. *)
Lemma subscribe_events_accepted
  (faults : list entry -> request -> option Z) (dev : string)
  (ws : list CounterWatch.t) (w : world) :
  accepts faults (log w) (planned dev ws) = true
  <-> exists w' s, subscribe_events faults dev ws w = (w', Ret s).
Proof.
  unfold planned. simpl accepts.
  unfold subscribe_events, with_ExitStack.
  unfold bind at 1. unfold lift at 1, open, syscall. simpl.
  destruct (faults (log w) (ReqOpen dev "rb")) as [errno |] eqn:Hopen.
  { simpl. split; [intros H; discriminate H | intros (w' & s & H); discriminate H]. }
  unfold bind at 1, push at 1. simpl.
  unfold bind at 1, lift at 1, fcntl, on_open_file, syscall. simpl.
  destruct (faults (log w ++ [(ReqOpen dev "rb", None)])
              (ReqFcntl F_SETFL O_NONBLOCK)) as [errno |] eqn:Hfcntl.
  { simpl. split; [intros H; discriminate H | intros (w' & s & H); discriminate H]. }
  set (w2 := record (ReqFcntl F_SETFL O_NONBLOCK) None _).
  match goal with
  | |- context [accepts faults ?lg (map add_request ws ++ _)] =>
      change lg with (log w2)
  end.
  assert (Ho2 : handle_open w2 = true) by reflexivity.
  clearbody w2.
  rewrite accepts_app.
  unfold bind at 1. rewrite for_each_lift. simpl.
  destruct (for_each ws _ w2) as [w3 r3] eqn:Hloop.
  pose proof (add_watches_accepts faults ws w2 w3 r3 Ho2 Hloop) as Hacc.
  pose proof (add_watches_cases faults ws w2 w3 r3 Ho2 Hloop)
    as (Ho3 & _ & _ & _ & _ & Hcases).
  rewrite Hacc.
  destruct r3 as [[] | e |].
  - destruct Hcases as [(_ & Hlog3 & _) | (? & ? & ? & ? & _ & Habs & _)];
      [| discriminate Habs].
    rewrite <- Hlog3. simpl.
    unfold bind at 1, lift at 1. simpl.
    unfold enable_request.
    destruct (faults (log w3) (ReqIoctl COUNTER_ENABLE_EVENTS_IOCTL []))
      as [errno |] eqn:Henable.
    + rewrite (ioctl_open_fail _ _ _ _ _ Ho3 Henable).
      unfold ExitStack_exit, unwind, run_callback, file_close.
      simpl. rewrite Ho3. simpl.
      split; [intros H; discriminate H | intros (w' & s & H); discriminate H].
    + rewrite (ioctl_open_ok _ _ _ _ Ho3 Henable).
      unfold bind, push, pop_all, ExitStack_exit, unwind. simpl.
      split; [intros _; eexists _, _; reflexivity | reflexivity].
  - unfold ExitStack_exit, unwind, run_callback, file_close.
    simpl. rewrite Ho3. simpl.
    split; [intros H; discriminate H | intros (w' & s & H); discriminate H].
  - destruct Hcases as [(Habs & _) | (? & ? & ? & ? & _ & Habs & _)];
      discriminate Habs.
Qed.

(** X7.  [subscribe_events] returns a subscription exactly when the kernel
    accepts every planned request (open, fcntl, one add-watch per
    descriptor, enable-events), and raises [OSError] exactly when it refuses
    one of them; this covers the empty watch list. *)
Theorem subscribe_events_succeeds_iff
  (faults : list entry -> request -> option Z) (dev : string)
  (ws : list CounterWatch.t) (w : world) :
  (accepts faults (log w) (planned dev ws) = true
   <-> exists w' s, subscribe_events faults dev ws w = (w', Ret s))
  /\ (accepts faults (log w) (planned dev ws) = false
      <-> exists w' errno,
            subscribe_events faults dev ws w = (w', Raise (OSError errno))).
Proof.
  pose proof (subscribe_events_accepted faults dev ws w) as Hiff.
  split; [exact Hiff |].
  destruct (subscribe_events faults dev ws w) as [w' r] eqn:Hrun.
  pose proof (subscribe_events_cases faults dev ws w w' r Hrun) as Hcases.
  split.
  - intros Hacc.
    destruct Hcases as [_ _ _ _ _ _ _ | errno _ _ _ | pre post q errno _ _ _ _].
    + assert (Htrue : accepts faults (log w) (planned dev ws) = true)
        by (apply Hiff; eexists _, _; reflexivity).
      rewrite Hacc in Htrue. discriminate Htrue.
    + exists w', errno. reflexivity.
    + exists w', errno. reflexivity.
  - intros (w'' & errno & Hr).
    destruct (accepts faults (log w) (planned dev ws)) eqn:Hacc;
      [| reflexivity].
    destruct (proj1 Hiff eq_refl) as (w1 & s & Habs).
    rewrite Hr in Habs. discriminate Habs.
Qed.

(** X8.  When [subscribe_events] returns, it has made, in this order, the
    open, the fcntl, one add-watch request per descriptor in the order given,
    each carrying that descriptor's 6-byte encoding, and the enable-events
    request; the handle is open and non-blocking, events are enabled, and the
    returned stack holds the disable-events callback above the file's exit. *)
Theorem subscribe_events_success
  (faults : list entry -> request -> option Z) (dev : string)
  (ws : list CounterWatch.t) (w w' : world) (s : subscription) :
  subscribe_events faults dev ws w = (w', Ret s) ->
  s = [IoctlCallback COUNTER_DISABLE_EVENTS_IOCTL; FileExit]
  /\ since w w'
     = ok (ReqOpen dev "rb") :: ok (ReqFcntl F_SETFL O_NONBLOCK)
         :: map (fun watch =>
                   ok (ReqIoctl COUNTER_ADD_WATCH_IOCTL
                         (CounterWatch.to_bytes watch))) ws
         ++ [ok (ReqIoctl COUNTER_ENABLE_EVENTS_IOCTL [])]
  /\ watches w' = watches w ++ map CounterWatch.to_bytes ws
  /\ handle_open w' = true
  /\ nonblocking w' = true
  /\ events_enabled w' = true
  /\ fifo w' = fifo w.
Proof.
  intros Hrun. apply subscribe_events_cases in Hrun.
  inversion Hrun as [Hlog Ho Hnb Hen Hws Hfi _ Hs | |].
  split; [reflexivity |].
  split.
  { rewrite (since_app _ _ _ Hlog). unfold planned. simpl.
    rewrite map_app, map_map. reflexivity. }
  repeat split; assumption.
Qed.

Lemma subscribe_events_success_witness :
  map fst (since boot subscribed_world)
  = [ReqOpen counter2 "rb"; ReqFcntl F_SETFL O_NONBLOCK;
     ReqIoctl COUNTER_ADD_WATCH_IOCTL (CounterWatch.to_bytes overflow);
     ReqIoctl COUNTER_ADD_WATCH_IOCTL (CounterWatch.to_bytes underflow);
     ReqIoctl COUNTER_ENABLE_EVENTS_IOCTL []].
Proof.
  destruct (subscribe_events_success never_fails counter2
              [overflow; underflow] boot subscribed_world
              [IoctlCallback COUNTER_DISABLE_EVENTS_IOCTL; FileExit] eq_refl)
    as (_ & Hlog & _).
  rewrite Hlog. reflexivity.
Defined.

(** X9.  Whatever request is refused, [subscribe_events] neither blocks nor
    raises [ValueError]; when it raises, it is the [OSError] of the one
    refused request, after which only the close of the handle is logged
    (nothing at all when the open itself was refused), the handle is not left
    open and the enabled state is what it was. *)
Theorem subscribe_events_failure_any
  (faults : list entry -> request -> option Z) (dev : string)
  (ws : list CounterWatch.t) (w w' : world) (r : outcome subscription) :
  handle_open w = false ->
  subscribe_events faults dev ws w = (w', r) ->
  r <> Block
  /\ r <> Raise ValueError
  /\ (forall e, r = Raise e ->
        handle_open w' = false
        /\ events_enabled w' = events_enabled w
        /\ exists pre q errno closing,
             e = OSError errno
             /\ since w w' = map ok pre ++ (q, Some errno) :: closing
             /\ (closing = [] /\ pre = []
                 \/ closing = [(ReqClose, None)] /\ pre <> [])).
Proof.
  intros Hclosed Hrun. apply subscribe_events_cases in Hrun.
  destruct Hrun as [Hlog _ _ _ _ _ _ | errno Hlog Ho Hen
                   | pre post q errno Hplan Hlog Ho Hen].
  - split; [discriminate |]. split; [discriminate |].
    intros e He. discriminate He.
  - split; [discriminate |]. split; [discriminate |].
    intros e He. injection He as <-.
    split; [rewrite Ho; exact Hclosed |]. split; [exact Hen |].
    exists [], (ReqOpen dev "rb"), errno, [].
    split; [reflexivity |].
    split; [apply since_app; exact Hlog |].
    left. split; reflexivity.
  - split; [discriminate |]. split; [discriminate |].
    intros e He. injection He as <-.
    split; [exact Ho |]. split; [exact Hen |].
    exists (ReqOpen dev "rb" :: pre), q, errno, [(ReqClose, None)].
    split; [reflexivity |].
    split; [apply since_app; exact Hlog |].
    right. split; [reflexivity | discriminate].
Qed.

Lemma subscribe_events_failure_any_witness :
  handle_open
    (fst (subscribe_events (fails_at 1 13) counter2 [overflow] boot)) = false.
Proof.
  destruct (subscribe_events_failure_any (fails_at 1 13) counter2 [overflow]
              boot
              (fst (subscribe_events (fails_at 1 13) counter2 [overflow] boot))
              (snd (subscribe_events (fails_at 1 13) counter2 [overflow] boot))
              eq_refl eq_refl) as (_ & _ & Hfail).
  exact (proj1 (Hfail (OSError 13) eq_refl)).
Defined.







(** X14.  After the unsubscribe closure has run, [read_event] raises
    [ValueError] (a read of a closed file) and makes no request. *)
Theorem read_event_after_unsubscribe
  (faults : list entry -> request -> option Z) (dev : string)
  (ws : list CounterWatch.t) (w0 w1 : world) (s : subscription) (w : world) :
  subscribe_events faults dev ws w0 = (w1, Ret s) ->
  handle_open w = true ->
  read_event faults (snd (fst (unsubscribe faults s w)))
  = (snd (fst (unsubscribe faults s w)), Raise ValueError).
Proof.
  intros Hrun Ho.
  apply subscribe_events_cases in Hrun.
  inversion Hrun as [_ _ _ _ _ _ _ Hs | |]; subst s. clear Hrun.
  rewrite (unsubscribe_run faults w Ho).
  destruct (faults (log w) disable_request); reflexivity.
Qed.














Lemma read_event_after_unsubscribe_witness :
  snd (read_event never_fails
         (snd (fst (unsubscribe never_fails
                      [IoctlCallback COUNTER_DISABLE_EVENTS_IOCTL; FileExit]
                      subscribed_world))))
  = Raise ValueError.
Proof.
  rewrite (read_event_after_unsubscribe never_fails counter2
             [overflow; underflow] boot subscribed_world
             [IoctlCallback COUNTER_DISABLE_EVENTS_IOCTL; FileExit]
             subscribed_world eq_refl eq_refl).
  reflexivity.
Defined.

(** X10.  When the kernel accepts every request, subscribing and then
    unsubscribing logs the planned requests, the disable-events request and
    the close, in that order and nothing else, and ends with the handle
    closed and events disabled. *)
Theorem subscribe_then_unsubscribe
  (faults : list entry -> request -> option Z) (dev : string)
  (ws : list CounterWatch.t) (w : world) :
  accepts faults (log w) (planned dev ws ++ [disable_request]) = true ->
  exists w1 s w2,
    subscribe_events faults dev ws w = (w1, Ret s)
    /\ unsubscribe faults s w1 = ([], w2, Ret tt)
    /\ since w w2
       = map ok (planned dev ws ++ [disable_request]) ++ [(ReqClose, None)]
    /\ handle_open w2 = false
    /\ events_enabled w2 = false
    /\ watches w2 = watches w ++ map CounterWatch.to_bytes ws.
Proof.
  intros Hacc. rewrite accepts_app in Hacc.
  apply andb_prop in Hacc. destruct Hacc as [Hplan Hdis].
  apply subscribe_events_accepted in Hplan.
  destruct Hplan as (w1 & s & Hrun).
  pose proof (subscribe_events_cases faults dev ws w w1 (Ret s) Hrun) as Hc.
  inversion Hc as [Hlog Ho _ _ Hws _ _ Hs | |]. subst s.
  rewrite <- Hlog in Hdis. simpl in Hdis.
  destruct (faults (log w1) disable_request) eqn:Hf; [discriminate Hdis |].
  eexists w1, _, _. split; [exact Hrun |].
  rewrite (unsubscribe_run faults w1 Ho), Hf.
  split; [reflexivity |].
  split.
  { apply since_app. simpl log. rewrite Hlog, map_app, <- !app_assoc.
    reflexivity. }
  split; [reflexivity |].
  split; [reflexivity |].
  exact Hws.
Qed.

Lemma subscribe_then_unsubscribe_witness :
  exists w1 s w2,
    subscribe_events never_fails counter2 [] boot = (w1, Ret s)
    /\ unsubscribe never_fails s w1 = ([], w2, Ret tt)
    /\ map fst (since boot w2)
       = [ReqOpen counter2 "rb"; ReqFcntl F_SETFL O_NONBLOCK;
          enable_request; disable_request; ReqClose].
Proof.
  destruct (subscribe_then_unsubscribe never_fails counter2 [] boot eq_refl)
    as (w1 & s & w2 & Hsub & Hunsub & Hlog & _).
  exists w1, s, w2. split; [exact Hsub |]. split; [exact Hunsub |].
  rewrite Hlog. reflexivity.
Defined.

(** ** The sysfs accessors *)

(** A run of attribute requests stops at the first one refused. *)
Lemma perform_all_cases (kernel : sysfs_kernel) (qs : list attr_request) :
  forall (lg lg' : list attr_entry) (r : outcome unit),
    for_each qs (perform kernel) lg = (lg', r) ->
    (r = Ret tt /\ lg' = lg ++ map attr_ok qs)
    \/ exists pre q post errno,
         qs = pre ++ q :: post
         /\ r = Raise (OSError errno)
         /\ lg' = lg ++ map attr_ok pre ++ [(q, Some errno)].
Proof.
  induction qs as [| q rest IH]; intros lg lg' r Hrun.
  - simpl in Hrun. unfold ret in Hrun. injection Hrun as <- <-.
    left. split; [reflexivity |]. simpl. symmetry. apply app_nil_r.
  - simpl in Hrun. unfold bind in Hrun.
    assert (Hstep :
              perform kernel q lg = (lg ++ [attr_ok q], Ret tt)
              \/ exists errno,
                  perform kernel q lg
                  = (lg ++ [(q, Some errno)], Raise (OSError errno))).
    { destruct q as [path | path text]; simpl.
      - unfold bind, read_text, ret.
        destruct (show kernel lg path) as [errno | text];
          [right; exists errno; reflexivity | left; reflexivity].
      - unfold write_text.
        destruct (store kernel lg path text) as [errno |];
          [right; exists errno; reflexivity | left; reflexivity]. }
    destruct Hstep as [Hok | (errno & Hfail)].
    + rewrite Hok in Hrun. apply IH in Hrun.
      destruct Hrun as [(-> & ->) | (pre & q' & post & errno & -> & -> & ->)].
      * left. split; [reflexivity |]. simpl. rewrite <- app_assoc. reflexivity.
      * right. exists (q :: pre), q', post, errno.
        split; [reflexivity |]. split; [reflexivity |].
        simpl. rewrite <- app_assoc. reflexivity.
    + rewrite Hfail in Hrun. injection Hrun as <- <-.
      right. exists [], q, rest, errno. repeat split.
Qed.

(** [Count.__init__] is the run of its planned writes. *)
Lemma Count_init_as_writes (kernel : sysfs_kernel) (counter_sysfs : string)
  (id : Z) (function : string) (ceiling : Z) (count : option Z)
  (lg : list attr_entry) :
  Count.__init__ kernel counter_sysfs id function ceiling count lg
  = (for_each (Count.plan counter_sysfs id function ceiling count)
       (perform kernel) ;;
     ret (Count.mk (counter_sysfs ++ "/count" ++ str_int id)%string))%io lg.
Proof.
  unfold Count.__init__, Count.plan, Count.set_enable, Count.set_ceiling,
    Count.set_function, Count.set_count.
  cbn [Count._sysfs].
  change (str_int (Z.b2z false)) with "0".
  destruct count as [value |]; cbn [app for_each perform]; unfold bind, ret;
    repeat match goal with
      | |- context [write_text ?k ?p ?t ?l] =>
          destruct (write_text k p t l) as [? [[] | ? |]]; try reflexivity
      end.
Qed.

Lemma dict_set_fresh {A : Type} (k : Z) (v : A) (d : list (Z * A)) :
  ~ In k (map fst d) -> dict_set k v d = d ++ [(k, v)].
Proof.
  induction d as [| [k' v'] rest IH]; intros Hfresh; simpl.
  - reflexivity.
  - simpl in Hfresh.
    destruct (Z.eqb_spec k' k) as [-> | Hne]; [tauto |].
    rewrite IH by tauto. reflexivity.
Qed.

Lemma fold_dict_set_fresh {A : Type} (f : Z -> A) (ids : list Z) :
  forall d : list (Z * A),
    NoDup ids ->
    (forall i, In i ids -> ~ In i (map fst d)) ->
    fold_left (fun d i => dict_set i (f i) d) ids d
    = d ++ map (fun i => (i, f i)) ids.
Proof.
  induction ids as [| i rest IH]; intros d Hnd Hfresh; simpl.
  - symmetry. apply app_nil_r.
  - inversion Hnd as [| ? ? Hni Hnd']; subst.
    rewrite (dict_set_fresh i (f i) d) by (apply Hfresh; left; reflexivity).
    rewrite IH.
    + rewrite <- app_assoc. reflexivity.
    + exact Hnd'.
    + intros j Hj. rewrite map_app, in_app_iff. simpl.
      intros [Hin | [-> | []]].
      * apply (Hfresh j); [right; exact Hj | exact Hin].
      * contradiction.
Qed.

Lemma NoDup_range (n : Z) : NoDup (range n).
Proof.
  unfold range.
  generalize (seq_NoDup (Z.to_nat n) 0).
  induction (seq 0 (Z.to_nat n)) as [| k rest IH]; intros Hnd; simpl.
  - constructor.
  - inversion Hnd as [| ? ? Hni Hnd']; subst.
    constructor; [| apply IH; exact Hnd'].
    rewrite in_map_iff. intros (j & Hj & Hin).
    apply Nat2Z.inj in Hj. subst j. contradiction.
Qed.

Lemma range_nonpositive (n : Z) : n <= 0 -> range n = [].
Proof.
  intros Hn. unfold range.
  replace (Z.to_nat n) with 0%nat by lia. reflexivity.
Qed.

Lemma length_range (n : Z) : List.length (range n) = Z.to_nat n.
Proof. unfold range. rewrite length_map, length_seq. reflexivity. Qed.

Lemma in_range (n i : Z) : In i (range n) <-> 0 <= i < n.
Proof.
  unfold range. rewrite in_map_iff. split.
  - intros (k & <- & Hk). apply in_seq in Hk. lia.
  - intros Hi. exists (Z.to_nat i). split; [lia |]. apply in_seq. lia.
Qed.

(** The loop over the counts, when it runs to its end. *)
Lemma make_counts_returns (kernel : sysfs_kernel) (sysfs function : string)
  (ceiling : Z) (count : option Z) (ids : list Z) :
  forall (counts counts' : list (Z * Count.t)) (lg lg' : list attr_entry),
    Counter.make_counts kernel sysfs function ceiling count ids counts lg
    = (lg', Ret counts') ->
    counts'
    = fold_left
        (fun d i =>
           dict_set i (Count.mk (sysfs ++ "/count" ++ str_int i)%string) d)
        ids counts
    /\ lg'
       = lg ++ List.concat
                 (map (fun i =>
                         map attr_ok
                           (Count.plan sysfs i function ceiling count))
                    ids).
Proof.
  induction ids as [| i rest IH]; intros counts counts' lg lg' Hrun.
  - simpl in Hrun. unfold ret in Hrun. injection Hrun as <- <-.
    split; [reflexivity |]. simpl. symmetry. apply app_nil_r.
  - simpl in Hrun. unfold bind at 1 in Hrun.
    rewrite Count_init_as_writes in Hrun. unfold bind at 1 in Hrun.
    destruct (for_each (Count.plan sysfs i function ceiling count)
                (perform kernel) lg) as [lg1 r1] eqn:Hwrites.
    apply perform_all_cases in Hwrites.
    destruct Hwrites as [(-> & ->) | (? & ? & ? & ? & _ & -> & _)];
      [| discriminate Hrun].
    unfold ret at 1 in Hrun.
    apply IH in Hrun. destruct Hrun as [-> ->].
    split; [reflexivity |].
    simpl. rewrite <- app_assoc. reflexivity.
Qed.

(** X17.  [Count(...)] first writes "0" to the count's [enable] attribute,
    then the ceiling, the function and, when one is given, the count, each
    only if the writes before it were accepted; it returns when all were, and
    raises the [OSError] of the first refused write, with nothing written
    after it. *)
Theorem Count_init_disables_first (kernel : sysfs_kernel)
  (counter_sysfs : string) (id : Z) (function : string) (ceiling : Z)
  (count : option Z) (lg lg' : list attr_entry) (r : outcome Count.t) :
  Count.__init__ kernel counter_sysfs id function ceiling count lg = (lg', r) ->
  let dir := (counter_sysfs ++ "/count" ++ str_int id)%string in
  let plan := Count.plan counter_sysfs id function ceiling count in
  (exists res rest,
      lg' = lg ++ (AttrWrite (dir ++ "/enable")%string "0", res) :: rest)
  /\ (forall c, r = Ret c -> c = Count.mk dir /\ lg' = lg ++ map attr_ok plan)
  /\ (forall e, r = Raise e ->
        exists pre q post errno,
          plan = pre ++ q :: post
          /\ e = OSError errno
          /\ lg' = lg ++ map attr_ok pre ++ [(q, Some errno)])
  /\ r <> Block.
Proof.
  intros Hrun dir plan.
  rewrite Count_init_as_writes in Hrun. unfold bind in Hrun.
  fold plan in Hrun. fold dir in Hrun.
  destruct (for_each plan (perform kernel) lg) as [lg1 r1] eqn:Hwrites.
  apply perform_all_cases in Hwrites.
  destruct Hwrites as [(-> & ->) | (pre & q & post & errno & Hplan & -> & ->)].
  - unfold ret in Hrun. injection Hrun as <- <-.
    split.
    { unfold plan, Count.plan. fold dir. simpl. eexists _, _. reflexivity. }
    split; [intros c Hc; injection Hc as <-; split; reflexivity |].
    split; [intros e He; discriminate He | discriminate].
  - injection Hrun as <- <-.
    split.
    { unfold plan, Count.plan in Hplan. fold dir in Hplan.
      destruct pre as [| q0 pre].
      - simpl in Hplan. injection Hplan as <- _. simpl.
        eexists _, _. reflexivity.
      - simpl in Hplan. injection Hplan as <- _. simpl.
        eexists _, _. reflexivity. }
    split; [intros c Hc; discriminate Hc |].
    split; [| discriminate].
    intros e He. injection He as <-.
    exists pre, q, post, errno. repeat split. exact Hplan.
Qed.

Lemma Count_init_disables_first_witness :
  exists res rest,
    fst (Count.__init__ two_counts "/sys/bus/counter/devices/counter2" 0
           _DEFAULT_FUNCTION 359 (Some 0) [])
    = [] ++ (AttrWrite "/sys/bus/counter/devices/counter2/count0/enable" "0",
             res) :: rest.
Proof.
  destruct (Count_init_disables_first two_counts
              "/sys/bus/counter/devices/counter2" 0 _DEFAULT_FUNCTION 359
              (Some 0) []
              (fst (Count.__init__ two_counts
                      "/sys/bus/counter/devices/counter2" 0
                      _DEFAULT_FUNCTION 359 (Some 0) []))
              (snd (Count.__init__ two_counts
                      "/sys/bus/counter/devices/counter2" 0
                      _DEFAULT_FUNCTION 359 (Some 0) []))
              eq_refl) as (Hfirst & _).
  exact Hfirst.
Defined.

(** X18.  When [Counter(id, ...)] returns, its device node is
    [/dev/counter<id>], its counts are keyed 0 .. num_counts - 1 and its
    signals 0 .. num_signals - 1, in that order, each with its own attribute
    directory; it has read [num_counts], reset every count in ascending
    order, then read [num_signals], and nothing else.  A [num_counts] of
    zero or less gives no count and no write. *)
Theorem Counter_init_returns (kernel : sysfs_kernel)
  (int : string -> option Z) (id : Z) (function : string) (ceiling : Z)
  (count : option Z) (lg lg' : list attr_entry) (c : Counter.t) :
  Counter.__init__ kernel int id function ceiling count lg = (lg', Ret c) ->
  let sysfs := ("/sys/bus/counter/devices/counter" ++ str_int id)%string in
  let n := Counter._num_counts c in
  let m := Counter._num_signals c in
  Counter._sysfs c = sysfs
  /\ Counter._dev c = ("/dev/counter" ++ str_int id)%string
  /\ Counter._counts c
     = map (fun i => (i, Count.mk (sysfs ++ "/count" ++ str_int i)%string))
         (range n)
  /\ Counter._signals c
     = map (fun i => (i, Signal.mk (sysfs ++ "/signal" ++ str_int i)%string))
         (range m)
  /\ lg'
     = lg ++ [attr_ok (AttrRead (sysfs ++ "/num_counts")%string)]
         ++ List.concat
              (map (fun i =>
                      map attr_ok (Count.plan sysfs i function ceiling count))
                 (range n))
         ++ [attr_ok (AttrRead (sysfs ++ "/num_signals")%string)]
  /\ (exists text text',
         show kernel lg (sysfs ++ "/num_counts")%string = inr text
         /\ int text = Some n /\ int text' = Some m)
  /\ (n <= 0 ->
      Counter._counts c = []
      /\ lg' = lg ++ [attr_ok (AttrRead (sysfs ++ "/num_counts")%string);
                      attr_ok (AttrRead (sysfs ++ "/num_signals")%string)]).
Proof.
  intros Hrun sysfs n m.
  unfold Counter.__init__ in Hrun. fold sysfs in Hrun.
  unfold bind at 1, read_text at 1 in Hrun.
  destruct (show kernel lg (sysfs ++ "/num_counts")%string)
    as [errno | text] eqn:Hshow; [discriminate Hrun |].
  unfold bind at 1, py_int at 1 in Hrun.
  destruct (int text) as [n0 |] eqn:Hint; [| discriminate Hrun].
  unfold ret at 1 in Hrun. unfold bind at 1 in Hrun.
  destruct (Counter.make_counts kernel sysfs function ceiling count
              (range n0) [] _) as [lg1 r1] eqn:Hcounts.
  destruct r1 as [counts | e |]; [| discriminate Hrun | discriminate Hrun].
  apply make_counts_returns in Hcounts. destruct Hcounts as [-> ->].
  unfold bind at 1, read_text at 1 in Hrun.
  match type of Hrun with
  | context [show kernel ?l ?p] =>
      destruct (show kernel l p) as [errno | text'] eqn:Hshow';
        [discriminate Hrun |]
  end.
  unfold bind at 1, py_int at 1 in Hrun.
  destruct (int text') as [m0 |] eqn:Hint'; [| discriminate Hrun].
  unfold ret in Hrun. injection Hrun as <- <-.
  unfold n, m. cbn [Counter._sysfs Counter._dev Counter._num_counts
                    Counter._counts Counter._num_signals Counter._signals].
  split; [reflexivity |]. split; [reflexivity |].
  split.
  { rewrite fold_dict_set_fresh; [reflexivity | apply NoDup_range |].
    intros i _ []. }
  split.
  { unfold Counter.make_signals, Signal.__init__.
    rewrite fold_dict_set_fresh; [reflexivity | apply NoDup_range |].
    intros i _ []. }
  split.
  { rewrite <- !app_assoc. reflexivity. }
  split; [exists text, text'; repeat split; assumption |].
  intros Hn. rewrite (range_nonpositive n0 Hn).
  split; [reflexivity |].
  cbn [map List.concat]. rewrite app_nil_r, <- app_assoc. reflexivity.
Qed.

Lemma Counter_init_returns_witness :
  exists c,
    snd (Counter.__init__ two_counts sample_int 2 _DEFAULT_FUNCTION 359
           (Some 0) []) = Ret c
    /\ Counter._dev c = "/dev/counter2"
    /\ map fst (Counter._counts c) = [0; 1].
Proof.
  destruct (Counter.__init__ two_counts sample_int 2 _DEFAULT_FUNCTION 359
              (Some 0) []) as [lg' r] eqn:Hrun.
  vm_compute in Hrun. injection Hrun as <- <-.
  eexists. split; [reflexivity |].
  match goal with
  | |- Counter._dev ?c = _ /\ _ =>
      destruct (Counter_init_returns two_counts sample_int 2
                  _DEFAULT_FUNCTION 359 (Some 0) []
                  (fst (Counter.__init__ two_counts sample_int 2
                          _DEFAULT_FUNCTION 359 (Some 0) []))
                  c eq_refl) as (_ & Hdev & Hcounts & _)
  end.
  split; [exact Hdev |]. rewrite Hcounts. reflexivity.
Defined.
